(** * Streaming generation bridge of the MNN JNI wrapper

    A shallow embedding of the cancellation table and of the streaming
    relay of [mnnllmnative.cpp], and of the two tensor setters of
    [mnnmodulennative.cpp], followed by the properties of the bridge.

    Conventions of the embedding:
    - a [jlong] handle is an integer ([Z]); the process-wide
      [std::map<jlong, bool>] is a finite map [gmap Z bool];
    - a [std::string] is the list of its bytes;
    - every call into the JVM is an event of a trace, and what the JVM
      answers at a flush is an input of the flush ([JniReply]);
    - the engine is seen through the sink only: the sequence of
      [xsputn] calls it makes, interleaved with the [nativeCancel]
      calls other threads make meanwhile, and the way it ends;
    - the table is read under its mutex at the polls of [xsputn] only;
      the two polls of one call see the same table, the cancels of
      other threads taking effect between two calls;
    - the conversion of the history list and the lookups of Java
      classes and methods are marshaling and are left out, except for
      the three of them whose failure ends the request early. *)

From Stdlib Require Import ZArith List Bool Lia.
From Stdlib Require Strings.Byte.
From stdpp Require Import base option list strings gmap.

Local Open Scope Z_scope.

Abbreviation byte := Init.Byte.byte.

(** ** Cancellation table *)

Module CancelTable.

(** [gCancelFlags[llmPtr] = value] *)
Definition setCancelFlag (llmPtr : Z) (value : bool) (gCancelFlags : gmap Z bool)
  : gmap Z bool :=
  <[llmPtr := value]> gCancelFlags.

(** [it = find(llmPtr); return it != end() && it->second] *)
Definition checkCancelFlag (llmPtr : Z) (gCancelFlags : gmap Z bool) : bool :=
  match gCancelFlags !! llmPtr with
  | Some second => second
  | None => false
  end.

(** [gCancelFlags.erase(llmPtr)] *)
Definition clearCancelFlag (llmPtr : Z) (gCancelFlags : gmap Z bool) : gmap Z bool :=
  delete llmPtr gCancelFlags.

(** [nativeCancel]: nothing for the zero handle, otherwise
    [setCancelFlag(llmPtr, true)]. *)
Definition nativeCancel (llmPtr : Z) (gCancelFlags : gmap Z bool) : gmap Z bool :=
  if llmPtr =? 0 then gCancelFlags else setCancelFlag llmPtr true gCancelFlags.

End CancelTable.
Export CancelTable.

(** ** What the relay exchanges with the JVM *)

(** Result of [JavaVM::GetEnv], as far as [flushToCallback] tells the
    codes apart. *)
Inductive GetEnvResult :=
| JNI_OK
| JNI_EDETACHED
| JNI_OtherError.

(** Outcome of [CallBooleanMethod] on [onToken] followed by
    [ExceptionCheck]: the boolean the consumer returned, a pending Java
    exception, or a C++ exception caught by [catch (...)]. *)
Inductive CallResult :=
| Returned (shouldContinue : bool)
| JavaException
| CppException.

(** The answers of the JVM during one flush. A field is read only when
    the flush reaches the call it answers. *)
Record JniReply := {
  getEnvResult : GetEnvResult;   (* jvm->GetEnv *)
  attachOk : bool;               (* AttachCurrentThread(...) == JNI_OK *)
  jtokenNonNull : bool;          (* NewStringUTF(...) != nullptr *)
  onToken : CallResult           (* CallBooleanMethod + ExceptionCheck *)
}.

Inductive event :=
| GetEnv (r : GetEnvResult)
| AttachCurrentThread (ok : bool)
| NewStringUTF (bytes : list byte) (nonNull : bool)
| CallOnToken (chunk : list byte) (r : CallResult)
| DetachCurrentThread
| NewGlobalRef
| DeleteGlobalRef
| SetCancelFlag (llmPtr : Z) (value : bool)
| ClearCancelFlag (llmPtr : Z).

(** ** Stream context and sink *)

(** [StreamContext]; its [jvm], [callbackGlobalRef] and [onTokenMethod]
    fields are opaque JVM handles, represented by the trace. *)
Record StreamContext := {
  buffer : list byte;
  shouldStop : bool;
  llmPtr : Z
}.

Definition isNul (b : byte) : bool := Byte.eqb b Byte.x00.

(** [std::string::c_str()] as [NewStringUTF] reads it: the bytes up to
    the first NUL. *)
Fixpoint c_str (s : list byte) : list byte :=
  match s with
  | [] => []
  | b :: rest => if isNul b then [] else b :: c_str rest
  end.

(** ['\n'], ['.'], ['!'], ['?'] *)
Definition isAsciiDelimiter (ch : byte) : bool :=
  Byte.eqb ch Byte.x0a || Byte.eqb ch Byte.x2e
  || Byte.eqb ch Byte.x21 || Byte.eqb ch Byte.x3f.

(** The bytes at [bufEnd - 3], [bufEnd - 2], [bufEnd - 1] are
    E3 80 82, EF BC 81 or EF BC 9F. *)
Definition endsWithWidePunct (buf : list byte) : bool :=
  match drop (length buf - 3)%nat buf with
  | [c1; c2; c3] =>
      (Byte.eqb c1 Byte.xe3 && Byte.eqb c2 Byte.x80 && Byte.eqb c3 Byte.x82)
      || (Byte.eqb c1 Byte.xef && Byte.eqb c2 Byte.xbc && Byte.eqb c3 Byte.x81)
      || (Byte.eqb c1 Byte.xef && Byte.eqb c2 Byte.xbc && Byte.eqb c3 Byte.x9f)
  | _ => false
  end.

Module CallbackStream.

(** The part of [flushToCallback] that runs once a [JNIEnv] is at
    hand: create the Java string, call the consumer, detach if the
    thread was attached here, clear the buffer. *)
Definition deliver (jni : JniReply) (needDetach : bool) (ctx : StreamContext)
  : StreamContext * list event :=
  let chunk := c_str (buffer ctx) in
  let '(stop, called) :=
    if jtokenNonNull jni then
      match onToken jni with
      | Returned shouldContinue =>
          (negb shouldContinue, [CallOnToken chunk (Returned shouldContinue)])
      | JavaException => (true, [CallOnToken chunk JavaException])
      | CppException => (true, [CallOnToken chunk CppException])
      end
    else (false, []) in
  ({| buffer := [];
      shouldStop := shouldStop ctx || stop;
      llmPtr := llmPtr ctx |},
   NewStringUTF chunk (jtokenNonNull jni) :: called
     ++ (if needDetach then [DetachCurrentThread] else [])).

Definition flushToCallback (jni : JniReply) (ctx : StreamContext)
  : StreamContext * list event :=
  if (length (buffer ctx) =? 0)%nat || shouldStop ctx then (ctx, [])
  else
    match getEnvResult jni with
    | JNI_EDETACHED =>
        if attachOk jni then
          let '(ctx', evs) := deliver jni true ctx in
          (ctx', GetEnv JNI_EDETACHED :: AttachCurrentThread true :: evs)
        else (ctx, [GetEnv JNI_EDETACHED; AttachCurrentThread false])
    | JNI_OtherError => (ctx, [GetEnv JNI_OtherError])
    | JNI_OK =>
        let '(ctx', evs) := deliver jni false ctx in
        (ctx', GetEnv JNI_OK :: evs)
    end.

(** The flush decision taken after the append: [buf] is the buffer
    with the new bytes, [written] the [n] bytes of this call. *)
Definition shouldFlush (buf written : list byte) : bool :=
  if (16 <=? length buf)%nat then true
  else
    let found := existsb isAsciiDelimiter written in
    if negb found && (3 <=? length buf)%nat then endsWithWidePunct buf
    else found.

(** [xsputn(s, n)]: the number of bytes accepted, the context after
    the call and the JVM calls made. [gCancelFlags] is the table as
    the polls of this call see it. *)
Definition xsputn (gCancelFlags : gmap Z bool) (jni : JniReply)
    (s : list byte) (n : Z) (ctx : StreamContext)
  : Z * StreamContext * list event :=
  if shouldStop ctx || checkCancelFlag (llmPtr ctx) gCancelFlags || (n <=? 0) then
    (0,
     if checkCancelFlag (llmPtr ctx) gCancelFlags
     then {| buffer := buffer ctx; shouldStop := true; llmPtr := llmPtr ctx |}
     else ctx,
     [])
  else
    let written := take (Z.to_nat n) s in
    let ctx1 := {| buffer := buffer ctx ++ written;
                   shouldStop := shouldStop ctx;
                   llmPtr := llmPtr ctx |} in
    if shouldFlush (buffer ctx1) written then
      let '(ctx2, evs) := flushToCallback jni ctx1 in (n, ctx2, evs)
    else (n, ctx1, []).

End CallbackStream.
Export CallbackStream.

(** ** One streaming request *)

(** What happens while [llm->response] runs: the engine writes [n]
    bytes of [s] to the sink ([jni] answers the flush of that write, if
    it flushes), or another thread calls [nativeCancel]. *)
Inductive action :=
| Sputn (s : list byte) (n : Z) (jni : JniReply)
| OtherThreadCancel (h : Z).

(** How [llm->response] ends. *)
Inductive EngineExit :=
| Returns
| ThrowsStdException
| ThrowsOther.

(** The JNI preparation before the flag is registered: [GetJavaVM],
    [GetMethodID] of [onToken], [NewGlobalRef]. *)
Inductive SetupResult :=
| SetupOk
| GetJavaVMFailed
| OnTokenMissing
| GlobalRefFailed.

Record Relay := {
  gCancelFlags : gmap Z bool;
  context : StreamContext;
  trace : list event;
  accepted : list Z          (* the values returned by xsputn, in order *)
}.

Definition step (st : Relay) (a : action) : Relay :=
  match a with
  | Sputn s n jni =>
      let '(r, ctx', evs) := xsputn (gCancelFlags st) jni s n (context st) in
      {| gCancelFlags := gCancelFlags st;
         context := ctx';
         trace := trace st ++ evs;
         accepted := accepted st ++ [r] |}
  | OtherThreadCancel h =>
      {| gCancelFlags := nativeCancel h (gCancelFlags st);
         context := context st;
         trace := trace st;
         accepted := accepted st |}
  end.

(** [llm->response(history, &outputStream, nullptr, maxTokens)] seen
    from the sink. *)
Definition response (engine : list action) (st : Relay) : Relay :=
  fold_left step engine st.

(** The flush after [response] returned. *)
Definition finalFlush (jni : JniReply) (st : Relay) : Relay :=
  if negb (length (buffer (context st)) =? 0)%nat && negb (shouldStop (context st)) then
    let '(ctx', evs) := flushToCallback jni (context st) in
    {| gCancelFlags := gCancelFlags st;
       context := ctx';
       trace := trace st ++ evs;
       accepted := accepted st |}
  else st.

(** From [NewGlobalRef] to the construction of the sink: a fresh
    [StreamContext] and [setCancelFlag(llmPtr, false)]. *)
Definition beginStream (llmPtr : Z) (flags : gmap Z bool) : Relay :=
  {| gCancelFlags := setCancelFlag llmPtr false flags;
     context := {| buffer := []; shouldStop := false; llmPtr := llmPtr |};
     trace := [NewGlobalRef; SetCancelFlag llmPtr false];
     accepted := [] |}.

Record Outcome := {
  result : bool;                    (* JNI_TRUE / JNI_FALSE *)
  flagsAfter : gmap Z bool;         (* gCancelFlags at return *)
  calls : list event;               (* what the request did, in order *)
  returned : list Z;                (* what each xsputn returned *)
  latch : bool                      (* context.shouldStop when response ended *)
}.

Definition nativeGenerateStream (llmPtr : Z) (setup : SetupResult)
    (engine : list action) (exit : EngineExit) (finalJni : JniReply)
    (flags : gmap Z bool) : Outcome :=
  if llmPtr =? 0 then
    {| result := false; flagsAfter := flags; calls := []; returned := []; latch := false |}
  else
    match setup with
    | GetJavaVMFailed | OnTokenMissing | GlobalRefFailed =>
        {| result := false; flagsAfter := flags; calls := []; returned := [];
           latch := false |}
    | SetupOk =>
        let st1 := response engine (beginStream llmPtr flags) in
        match exit with
        | Returns =>
            let st2 := finalFlush finalJni st1 in
            {| result := true;
               flagsAfter := clearCancelFlag llmPtr (gCancelFlags st2);
               calls := trace st2 ++ [DeleteGlobalRef; ClearCancelFlag llmPtr];
               returned := accepted st2;
               latch := shouldStop (context st1) |}
        | ThrowsStdException | ThrowsOther =>
            {| result := false;
               flagsAfter := clearCancelFlag llmPtr (gCancelFlags st1);
               calls := trace st1 ++ [DeleteGlobalRef; ClearCancelFlag llmPtr];
               returned := accepted st1;
               latch := shouldStop (context st1) |}
        end
    end.

(** The chunks handed to the consumer, in order. A chunk is the byte
    string given to [NewStringUTF]; how the JVM decodes it is not part
    of the embedding. *)
Definition delivered (evs : list event) : list (list byte) :=
  omap (fun e => match e with CallOnToken chunk _ => Some chunk | _ => None end) evs.

(** The bytes of one action that the engine hands to the sink. *)
Definition actionBytes (a : action) : list byte :=
  match a with
  | Sputn s n _ => take (Z.to_nat n) s
  | OtherThreadCancel _ => []
  end.

(** The full text the engine writes. *)
Definition engineText (engine : list action) : list byte :=
  concat (map actionBytes engine).

Definition bytes (s : string) : list byte := String.list_byte_of_string s.

(** A flush whose JVM calls all succeed and whose consumer answers [r]. *)
Definition jniOk (r : CallResult) : JniReply :=
  {| getEnvResult := JNI_OK; attachOk := true; jtokenNonNull := true; onToken := r |}.

(** ** Observations on traces and engines *)

Definition isGetEnv (e : event) : bool :=
  match e with GetEnv _ => true | _ => false end.

(** The number of flushes that went as far as asking for a [JNIEnv]. *)
Definition flushCount (evs : list event) : nat :=
  length (filter (fun e => isGetEnv e = true) evs).

(** A call a flush makes before or when it reaches the consumer. *)
Definition isFlushCall (e : event) : bool :=
  match e with
  | GetEnv _ | AttachCurrentThread _ | NewStringUTF _ _ | CallOnToken _ _ => true
  | _ => false
  end.

(** The consumer answered false. *)
Definition isStopAnswer (e : event) : bool :=
  match e with CallOnToken _ (Returned false) => true | _ => false end.

(** A JVM call of a flush that failed before the consumer was reached. *)
Definition isFailedCall (e : event) : bool :=
  match e with
  | GetEnv JNI_OtherError | AttachCurrentThread false | NewStringUTF _ false => true
  | _ => false
  end.

Definition isClearOf (h : Z) (e : event) : bool :=
  match e with ClearCancelFlag h' => h' =? h | _ => false end.

Definition clearCount (h : Z) (evs : list event) : nat :=
  length (filter (fun e => isClearOf h e = true) evs).

(** The flush reaches the consumer: a [JNIEnv] is obtained and the Java
    string is created. *)
Definition reachesConsumer (jni : JniReply) : Prop :=
  (getEnvResult jni = JNI_OK \/ (getEnvResult jni = JNI_EDETACHED /\ attachOk jni = true))
  /\ jtokenNonNull jni = true.

Definition isSputn (a : action) : bool :=
  match a with Sputn _ _ _ => true | OtherThreadCancel _ => false end.

(** A-Z or a-z. *)
Definition isLetter (b : byte) : bool :=
  let c := Byte.to_N b in
  ((65 <=? c) && (c <=? 90) || (97 <=? c) && (c <=? 122))%N.

(** The number of writes the engine makes. *)
Definition writesOf (engine : list action) : nat :=
  length (filter (fun a => isSputn a = true) engine).

(** After the first answer false of the consumer, the trace holds no
    call of a flush. *)
Fixpoint quietAfterStop (tr : list event) : bool :=
  match tr with
  | [] => true
  | e :: rest =>
      if isStopAnswer e then forallb (fun e' => negb (isFlushCall e')) rest
      else quietAfterStop rest
  end.

(** The invariant of a run: the trace is quiet after an answer false,
    and holds none while the latch is open. *)
Definition stopInvariant (st : Relay) : Prop :=
  if shouldStop (context st) then quietAfterStop (trace st) = true
  else forallb (fun e => negb (isStopAnswer e)) (trace st) = true.

(** An action that leaves a request on handle [h] undisturbed: a write
    whose flush, if any, reaches the consumer, or a cancel of another
    handle. *)
Definition undisturbed (h : Z) (a : action) : Prop :=
  match a with
  | Sputn _ _ jni => reachesConsumer jni
  | OtherThreadCancel h' => h' <> h
  end.

(** ** Tensor setters of the module wrapper *)

Module ModuleNative.

(** What [writeMap<T>()] on the variable does: a pointer to the tensor's
    memory, a null pointer, or an exception. *)
Inductive WriteMap :=
| WritePtr
| WriteNull
| WriteThrowsStd
| WriteThrowsOther.

(** The function returns a [jboolean], unless an exception that is
    not a [std::exception] leaves it. *)
Inductive Ret :=
| Return (b : bool)
| Uncaught.

(** A [jfloat] is copied as its 32 bits, a [jint] as a 32-bit integer. *)
Definition jfloat := Z.
Definition jint := Z.

(** [memcpy(ptr, data, dataSize * sizeof(T))] on a tensor of
    [length dst] elements; elements past the tensor's end fall outside
    of it. *)
Definition memcpy {T} (dst src : list T) : list T :=
  take (length dst) (src ++ drop (length src) dst).

Definition nativeSetVarFloatData (varPtr : Z) (writeMap : WriteMap)
    (tensor : list jfloat) (jdata : list jfloat) : Ret * list jfloat :=
  if varPtr =? 0 then (Return false, tensor)
  else
    match writeMap with
    | WritePtr => (Return true, memcpy tensor jdata)
    | WriteNull => (Return true, tensor)
    | WriteThrowsStd => (Return false, tensor)
    | WriteThrowsOther => (Uncaught, tensor)
    end.

Definition nativeSetVarIntData (varPtr : Z) (writeMap : WriteMap)
    (tensor : list jint) (jdata : list jint) : Ret * list jint :=
  if varPtr =? 0 then (Return false, tensor)
  else
    match writeMap with
    | WritePtr => (Return true, memcpy tensor jdata)
    | WriteNull => (Return true, tensor)
    | WriteThrowsStd => (Return false, tensor)
    | WriteThrowsOther => (Uncaught, tensor)
    end.

End ModuleNative.

(** ** Further observations on traces and runs *)

Definition countEvents (p : event -> bool) (evs : list event) : nat :=
  length (filter (fun e => p e = true) evs).

Definition isAttached (e : event) : bool :=
  match e with AttachCurrentThread true => true | _ => false end.

Definition isDetach (e : event) : bool :=
  match e with DetachCurrentThread => true | _ => false end.

Definition isNewGlobalRef (e : event) : bool :=
  match e with NewGlobalRef => true | _ => false end.

Definition isDeleteGlobalRef (e : event) : bool :=
  match e with DeleteGlobalRef => true | _ => false end.

(** [NewStringUTF] returned null. *)
Definition isJstringFailure (e : event) : bool :=
  match e with NewStringUTF _ false => true | _ => false end.

(** A call of the consumer after which [flushToCallback] sets the
    latch: it answered false, or an exception was raised. *)
Definition stopsGeneration (e : event) : bool :=
  match e with
  | CallOnToken _ (Returned true) => false
  | CallOnToken _ _ => true
  | _ => false
  end.

(** After the first call of the consumer that stops the generation,
    the trace holds no call of a flush. *)
Fixpoint quietAfterHalt (tr : list event) : bool :=
  match tr with
  | [] => true
  | e :: rest =>
      if stopsGeneration e then forallb (fun e' => negb (isFlushCall e')) rest
      else quietAfterHalt rest
  end.

Definition haltInvariant (st : Relay) : Prop :=
  if shouldStop (context st) then quietAfterHalt (trace st) = true
  else forallb (fun e => negb (stopsGeneration e)) (trace st) = true.

(** The flush obtains a [JNIEnv]: [GetEnv] succeeds, or the thread is
    detached and can be attached. *)
Definition envObtained (jni : JniReply) : Prop :=
  getEnvResult jni = JNI_OK
  \/ (getEnvResult jni = JNI_EDETACHED /\ attachOk jni = true).

(** The actions that concern a request on handle [h]: the writes and
    the cancels of [h]. *)
Definition forThisHandle (h : Z) (a : action) : bool :=
  match a with
  | Sputn _ _ _ => true
  | OtherThreadCancel h' => h' =? h
  end.

(** Two relays that differ at most in the entries of other handles. *)
Definition sameRun (st st' : Relay) : Prop :=
  context st = context st'
  /\ trace st = trace st'
  /\ accepted st = accepted st'
  /\ gCancelFlags st !! llmPtr (context st) = gCancelFlags st' !! llmPtr (context st).

(** What the writes of the engine ask the sink to take: [n] bytes, or
    none for [n <= 0]. *)
Definition requested (engine : list action) : list Z :=
  omap (fun a => match a with
                 | Sputn _ n _ => Some (Z.max 0 n)
                 | OtherThreadCancel _ => None
                 end) engine.

(** A write whose flush, if any, obtains a [JNIEnv]. *)
Definition envAvailable (a : action) : Prop :=
  match a with
  | Sputn _ _ jni => envObtained jni
  | OtherThreadCancel _ => True
  end.

(** The last flush of a request did not obtain a [JNIEnv]: the call
    before the teardown is a [GetEnv] that failed or an
    [AttachCurrentThread] that failed. *)
Definition lastFlushLacksEnv (evs : list event) : bool :=
  match rev evs with
  | ClearCancelFlag _ :: DeleteGlobalRef :: GetEnv JNI_OtherError :: _ => true
  | ClearCancelFlag _ :: DeleteGlobalRef :: AttachCurrentThread false :: _ => true
  | _ => false
  end.

(** ** Generation without streaming *)

(** [stringToJstring]: [NewStringUTF(str.c_str())]; a Java string is
    seen as the bytes it was made from, null as [None]. *)
Definition stringToJstring (nonNull : bool) (str : list byte) : option (list byte) :=
  if nonNull then Some (c_str str) else None.

(** A write of the engine into the [std::stringstream] of
    [nativeGenerate]. *)
Definition stringstreamWrite (str : list byte) (a : action) : list byte :=
  match a with
  | Sputn s n _ => if 0 <? n then str ++ take (Z.to_nat n) s else str
  | OtherThreadCancel _ => str
  end.

Inductive GenerateResult :=
| Jstring (jstr : option (list byte))
| GenerateUncaught.

(** [nativeGenerate]: the whole response as one Java string. The
    [onToken] method is looked up but never called; only
    [std::exception] is caught. *)
Definition nativeGenerate (llmPtr : Z) (onTokenFound : bool) (engine : list action)
    (exit : EngineExit) (jstringNonNull : bool) : GenerateResult :=
  if llmPtr =? 0 then Jstring None
  else if negb onTokenFound then Jstring None
  else
    match exit with
    | Returns =>
        let response := fold_left stringstreamWrite engine [] in
        Jstring (stringToJstring jstringNonNull response)
    | ThrowsStdException => Jstring None
    | ThrowsOther => GenerateUncaught
    end.

(** ** Element type of an input variable *)

Module InputVar.

(** The fields of [halide_type_t] that [nativeCreateInputVar] sets. *)
Record halide_type_t := {
  code : Z;
  bits : Z;
  lanes : Z
}.

Section FieldTypes.

(** The types of the fields [code] and [bits] are declared in a header
    of the engine that the wrapper includes; the conversions of an
    [int] to them are parameters of the decoding. *)
Variable toCode : Z -> Z.      (* (halide_type_code_t) x *)
Variable toBits : Z -> Z.      (* the conversion of the assignment to bits *)

(** [dtype.code = (halide_type_code_t)(dataType >> 8);
    dtype.bits = dataType & 0xFF; dtype.lanes = 1] *)
Definition dtypeOf (dataType : Z) : halide_type_t :=
  {| code := toCode (Z.shiftr dataType 8);
     bits := toBits (Z.land dataType 255);
     lanes := 1 |}.

End FieldTypes.

(** The conversion to an unsigned field of eight bits. *)
Definition toUint8 (x : Z) : Z := x mod 256.

End InputVar.

(** * Properties *)

(** ** The cancellation table *)

Section Table.
Implicit Types (h : Z) (g : gmap Z bool).

Lemma checkCancelFlag_Some h g b : g !! h = Some b -> checkCancelFlag h g = b.
Proof. unfold checkCancelFlag. by intros ->. Qed.

Lemma checkCancelFlag_None h g : g !! h = None -> checkCancelFlag h g = false.
Proof. unfold checkCancelFlag. by intros ->. Qed.

Lemma checkCancelFlag_set h g b : checkCancelFlag h (setCancelFlag h b g) = b.
Proof. apply checkCancelFlag_Some, lookup_insert_eq. Qed.

Lemma checkCancelFlag_set_ne h h' g b :
  h' <> h -> checkCancelFlag h (setCancelFlag h' b g) = checkCancelFlag h g.
Proof.
  intros Hne. unfold checkCancelFlag, setCancelFlag.
  by rewrite lookup_insert_ne.
Qed.

Lemma setCancelFlag_twice h g b b' :
  setCancelFlag h b (setCancelFlag h b' g) = setCancelFlag h b g.
Proof. apply insert_insert_eq. Qed.

End Table.

(** C7. [checkCancelFlag] returns the stored boolean of an existing
    entry and false when the handle has no entry; after
    [clearCancelFlag] of the same handle it returns false whatever the
    table held, and clearing a handle without entry leaves the table as
    it is. *)
Theorem checkCancelFlag_clearCancelFlag_spec (h : Z) (g : gmap Z bool) :
  (forall b, g !! h = Some b -> checkCancelFlag h g = b)
  /\ (g !! h = None -> checkCancelFlag h g = false)
  /\ checkCancelFlag h (clearCancelFlag h g) = false
  /\ (g !! h = None -> clearCancelFlag h g = g).
Proof.
  repeat split.
  - intros b. apply checkCancelFlag_Some.
  - apply checkCancelFlag_None.
  - apply checkCancelFlag_None, lookup_delete_eq.
  - apply delete_id.
Qed.

Lemma checkCancelFlag_clearCancelFlag_witness :
  checkCancelFlag 5 (setCancelFlag 5 true ∅) = true
  /\ checkCancelFlag 5 ∅ = false
  /\ checkCancelFlag 5 (clearCancelFlag 5 (setCancelFlag 5 true ∅)) = false
  /\ clearCancelFlag 5 ∅ = ∅.
Proof.
  destruct (checkCancelFlag_clearCancelFlag_spec 5 (setCancelFlag 5 true ∅))
    as (Hsome & _ & Hclear & _).
  destruct (checkCancelFlag_clearCancelFlag_spec 5 ∅) as (_ & Hnone & _ & Hid).
  split; [apply Hsome; reflexivity|].
  split; [apply Hnone; reflexivity|].
  split; [exact Hclear|apply Hid; reflexivity].
Defined.

(** ** [nativeCancel] *)

Lemma nativeCancel_zero (g : gmap Z bool) : nativeCancel 0 g = g.
Proof. reflexivity. Qed.

Lemma nativeCancel_nonzero (h : Z) (g : gmap Z bool) :
  h <> 0 -> nativeCancel h g = setCancelFlag h true g.
Proof.
  intros Hh. unfold nativeCancel.
  destruct (Z.eqb_spec h 0) as [->|_]; [contradiction|reflexivity].
Qed.

Lemma checkCancelFlag_nativeCancel_ne (h h' : Z) (g : gmap Z bool) :
  h' <> h -> checkCancelFlag h (nativeCancel h' g) = checkCancelFlag h g.
Proof.
  intros Hne. unfold nativeCancel.
  destruct (h' =? 0); [reflexivity|by apply checkCancelFlag_set_ne].
Qed.

(** C2, as stated, fails: on the empty table, which has no entry for
    handle 1, [nativeCancel 1] creates the entry [1 -> true]. *)
Lemma nativeCancel_absent_handle_creates_entry :
  (∅ : gmap Z bool) !! 1 = None
  /\ nativeCancel 1 ∅ !! 1 = Some true
  /\ nativeCancel 1 ∅ <> ∅.
Proof.
  split; [reflexivity|]. split; [reflexivity|].
  intros Heq. apply (f_equal (fun m : gmap Z bool => m !! 1)) in Heq.
  discriminate Heq.
Qed.

(** C2, amended. For a non-zero handle without entry, [nativeCancel]
    creates the entry of that handle with value true, so that the table
    is changed; the entries of all other handles are as before. *)
Theorem nativeCancel_absent_handle (h : Z) (g : gmap Z bool) :
  h <> 0 -> g !! h = None ->
  nativeCancel h g !! h = Some true
  /\ (forall h', h' <> h -> nativeCancel h g !! h' = g !! h')
  /\ nativeCancel h g <> g.
Proof.
  intros Hh Hnone. rewrite nativeCancel_nonzero by assumption.
  unfold setCancelFlag. split; [apply lookup_insert_eq|]. split.
  - intros h' Hne. by apply lookup_insert_ne.
  - intros Heq. apply (f_equal (fun m : gmap Z bool => m !! h)) in Heq.
    rewrite lookup_insert_eq, Hnone in Heq. discriminate Heq.
Qed.

Lemma nativeCancel_absent_handle_witness :
  nativeCancel 1 ∅ !! 1 = Some true
  /\ (forall h', h' <> 1 -> nativeCancel 1 ∅ !! h' = (∅ : gmap Z bool) !! h')
  /\ nativeCancel 1 ∅ <> ∅.
Proof. apply (nativeCancel_absent_handle 1 ∅); [lia|reflexivity]. Defined.

(** ** The tensor setters *)

Module ModuleNativeFacts.
Import ModuleNative.

(** C10. With a non-zero variable handle, both setters return true
    when [writeMap] yields a null pointer, and the tensor keeps its
    contents whatever the input array is; a false return happens only
    for the zero handle or when [writeMap] throws a [std::exception]. *)
Theorem setVarData_true_without_copy (varPtr : Z) (tensor jdata : list Z) :
  varPtr <> 0 ->
  nativeSetVarFloatData varPtr WriteNull tensor jdata = (Return true, tensor)
  /\ nativeSetVarIntData varPtr WriteNull tensor jdata = (Return true, tensor)
  /\ (forall p w t d, fst (nativeSetVarFloatData p w t d) = Return false ->
                      p = 0 \/ w = WriteThrowsStd)
  /\ (forall p w t d, fst (nativeSetVarIntData p w t d) = Return false ->
                      p = 0 \/ w = WriteThrowsStd).
Proof.
  intros Hptr. unfold nativeSetVarFloatData, nativeSetVarIntData.
  destruct (Z.eqb_spec varPtr 0) as [->|_]; [contradiction|].
  repeat split; intros p w t d;
    (destruct (Z.eqb_spec p 0) as [->|_]; [by left|]);
    destruct w; cbn; intros Hret; try discriminate Hret; by right.
Qed.

Lemma setVarData_true_without_copy_witness :
  nativeSetVarFloatData 4096 WriteNull [0; 0] [1065353216; 1073741824]
    = (Return true, [0; 0])
  /\ nativeSetVarIntData 4096 WriteNull [0; 0] [1; 2] = (Return true, [0; 0])
  /\ (fst (nativeSetVarIntData 4096 WriteThrowsStd [0; 0] [1; 2]) = Return false
      /\ (4096 = 0 \/ WriteThrowsStd = WriteThrowsStd)).
Proof.
  destruct (setVarData_true_without_copy 4096 [0; 0] [1065353216; 1073741824])
    as (Hfloat & _); [lia|].
  destruct (setVarData_true_without_copy 4096 [0; 0] [1; 2])
    as (_ & Hint & _ & Hfalse); [lia|].
  split; [exact Hfloat|]. split; [exact Hint|].
  split; [reflexivity|].
  apply (Hfalse 4096 WriteThrowsStd [0; 0] [1; 2]). reflexivity.
Defined.

End ModuleNativeFacts.

(** ** The sink: one call of [xsputn] *)

Section Sink.
Implicit Types (g : gmap Z bool) (jni : JniReply) (ctx : StreamContext)
  (s buf written : list byte) (n : Z) (evs : list event).

Lemma byte_eqb_true (a b : byte) : Byte.eqb a b = true <-> a = b.
Proof. split; [apply Byte.byte_dec_bl|apply Byte.byte_dec_lb]. Qed.

Lemma isAsciiDelimiter_spec (ch : byte) :
  isAsciiDelimiter ch = true
  <-> ch = Byte.x0a \/ ch = Byte.x2e \/ ch = Byte.x21 \/ ch = Byte.x3f.
Proof.
  unfold isAsciiDelimiter. rewrite !orb_true_iff, !byte_eqb_true. tauto.
Qed.

Lemma endsWithWidePunct_suffix (pre : list byte) (c1 c2 c3 : byte) :
  endsWithWidePunct (pre ++ [c1; c2; c3]) = true
  <-> [c1; c2; c3] = [Byte.xe3; Byte.x80; Byte.x82]
      \/ [c1; c2; c3] = [Byte.xef; Byte.xbc; Byte.x81]
      \/ [c1; c2; c3] = [Byte.xef; Byte.xbc; Byte.x9f].
Proof.
  unfold endsWithWidePunct.
  replace (length (pre ++ [c1; c2; c3]) - 3)%nat with (length pre)
    by (rewrite length_app; cbn; lia).
  rewrite drop_app_length.
  rewrite !orb_true_iff, !andb_true_iff, !byte_eqb_true.
  split.
  - intros [[[[-> ->] ->]|[[-> ->] ->]]|[[-> ->] ->]]; auto.
  - intros [H|[H|H]]; injection H as -> -> ->; auto.
Qed.

Lemma endsWithWidePunct_short buf :
  (length buf < 3)%nat -> endsWithWidePunct buf = false.
Proof.
  intros Hlen. unfold endsWithWidePunct.
  replace (length buf - 3)%nat with 0%nat by lia. rewrite drop_0.
  destruct buf as [|a [|b [|c [|d rest]]]]; cbn in *; try reflexivity; lia.
Qed.

(** A buffer of at least three bytes is its last three bytes after a
    prefix. *)
Lemma last_three buf :
  (3 <= length buf)%nat -> exists pre c1 c2 c3, buf = pre ++ [c1; c2; c3].
Proof.
  intros Hlen. exists (take (length buf - 3) buf).
  pose proof (take_drop (length buf - 3) buf) as Hsplit.
  pose proof (length_drop buf (length buf - 3)) as Hdrop.
  destruct (drop (length buf - 3) buf) as [|a [|b [|c [|d rest]]]];
    cbn in Hdrop; try lia.
  exists a, b, c. by rewrite Hsplit.
Qed.

Lemma endsWithWidePunct_spec buf :
  endsWithWidePunct buf = true
  <-> exists pre, buf = pre ++ [Byte.xe3; Byte.x80; Byte.x82]
                  \/ buf = pre ++ [Byte.xef; Byte.xbc; Byte.x81]
                  \/ buf = pre ++ [Byte.xef; Byte.xbc; Byte.x9f].
Proof.
  split.
  - intros Hends.
    destruct (Nat.lt_ge_cases (length buf) 3) as [Hshort|Hlong].
    + rewrite endsWithWidePunct_short in Hends by assumption. discriminate.
    + destruct (last_three buf Hlong) as (pre & c1 & c2 & c3 & ->).
      exists pre. apply endsWithWidePunct_suffix in Hends.
      destruct Hends as [->| [->| ->]]; auto.
  - intros (pre & [->| [->| ->]]); apply endsWithWidePunct_suffix; auto.
Qed.

(** The decision of [xsputn] is the disjunction of its three rules. *)
Lemma shouldFlush_rules buf written :
  shouldFlush buf written
  = (16 <=? length buf)%nat || existsb isAsciiDelimiter written
    || endsWithWidePunct buf.
Proof.
  unfold shouldFlush.
  destruct (16 <=? length buf)%nat eqn:H16; [reflexivity|].
  destruct (existsb isAsciiDelimiter written); [reflexivity|].
  destruct (3 <=? length buf)%nat eqn:H3; [reflexivity|].
  cbn. symmetry. apply endsWithWidePunct_short.
  apply Nat.leb_gt in H3. exact H3.
Qed.

Lemma shouldFlush_true_iff buf written :
  shouldFlush buf written = true
  <-> (16 <= length buf)%nat
      \/ (exists ch, In ch written /\ isAsciiDelimiter ch = true)
      \/ endsWithWidePunct buf = true.
Proof.
  rewrite shouldFlush_rules, !orb_true_iff, Nat.leb_le, existsb_exists. tauto.
Qed.


(** [xsputn] on a latched context: nothing happens. *)
Lemma xsputn_stopped g jni s n ctx :
  shouldStop ctx = true -> xsputn g jni s n ctx = (0, ctx, []).
Proof.
  intros Hstop. unfold xsputn. rewrite Hstop. cbn.
  destruct (checkCancelFlag (llmPtr ctx) g); [|reflexivity].
  destruct ctx as [b st h]. cbn in *. by subst.
Qed.

(** [xsputn] that sees the cancellation flag: the latch is set and
    nothing else happens. *)
Lemma xsputn_cancelled g jni s n ctx :
  checkCancelFlag (llmPtr ctx) g = true ->
  xsputn g jni s n ctx
  = (0, {| buffer := buffer ctx; shouldStop := true; llmPtr := llmPtr ctx |}, []).
Proof.
  intros Hflag. unfold xsputn. rewrite Hflag, orb_true_r. reflexivity.
Qed.

Lemma xsputn_empty g jni s n ctx :
  shouldStop ctx = false -> checkCancelFlag (llmPtr ctx) g = false -> n <= 0 ->
  xsputn g jni s n ctx = (0, ctx, []).
Proof.
  intros Hstop Hflag Hn. unfold xsputn. rewrite Hstop, Hflag.
  destruct (Z.leb_spec n 0); [reflexivity|lia].
Qed.

(** [xsputn] that accepts its bytes. *)
Lemma xsputn_accepted g jni s n ctx :
  shouldStop ctx = false -> checkCancelFlag (llmPtr ctx) g = false -> 0 < n ->
  xsputn g jni s n ctx
  = let written := take (Z.to_nat n) s in
    let ctx1 := {| buffer := buffer ctx ++ written; shouldStop := false;
                   llmPtr := llmPtr ctx |} in
    if shouldFlush (buffer ctx ++ written) written
    then (n, (flushToCallback jni ctx1).1, (flushToCallback jni ctx1).2)
    else (n, ctx1, []).
Proof.
  intros Hstop Hflag Hn. unfold xsputn. rewrite Hstop, Hflag.
  destruct (Z.leb_spec n 0); [lia|]. cbn.
  destruct (shouldFlush _ _); [|reflexivity].
  by destruct (flushToCallback _ _).
Qed.

(** A flush of a non-empty buffer on a context that is not latched
    asks for a [JNIEnv] once, calls the consumer at most once and,
    when the JVM calls succeed, hands it the buffer and empties it. *)
Lemma flushToCallback_live jni ctx :
  buffer ctx <> [] -> shouldStop ctx = false ->
  flushCount (flushToCallback jni ctx).2 = 1%nat
  /\ (length (delivered (flushToCallback jni ctx).2) <= 1)%nat
  /\ (reachesConsumer jni ->
      delivered (flushToCallback jni ctx).2 = [c_str (buffer ctx)]
      /\ buffer (flushToCallback jni ctx).1 = []).
Proof.
  intros Hbuf Hstop. unfold flushToCallback, reachesConsumer.
  destruct (buffer ctx) as [|b0 rest] eqn:Ebuf; [done|].
  rewrite Hstop. cbn [length Nat.eqb orb].
  destruct jni as [ge att jt ot]; cbn [getEnvResult attachOk].
  destruct ge, att, jt, ot as [[|]| |]; cbn; rewrite ?Ebuf;
    (split; [reflexivity|]); (split; [lia|]);
    intros [[?|[? ?]] ?]; try discriminate; done.
Qed.

(** Letters are neither delimiters nor NUL nor part of a wide mark. *)
Lemma isLetter_plain (b : byte) :
  isLetter b = true ->
  isAsciiDelimiter b = false /\ isNul b = false
  /\ Byte.eqb b Byte.xe3 = false /\ Byte.eqb b Byte.xef = false.
Proof. destruct b; intros Hletter; try discriminate Hletter; done. Qed.

Lemma c_str_no_nul buf : Forall (fun b => isNul b = false) buf -> c_str buf = buf.
Proof.
  induction 1 as [|b rest Hb _ IH]; [reflexivity|].
  cbn. rewrite Hb. by f_equal.
Qed.

Lemma letters_no_nul buf :
  Forall (fun b => isLetter b = true) buf -> Forall (fun b => isNul b = false) buf.
Proof.
  intros Hletters. eapply Forall_impl; [exact Hletters|].
  intros b Hb. by apply isLetter_plain.
Qed.

Lemma letters_no_delimiter buf :
  Forall (fun b => isLetter b = true) buf -> existsb isAsciiDelimiter buf = false.
Proof.
  induction 1 as [|b rest Hb _ IH]; [reflexivity|].
  cbn. rewrite IH. by destruct (isLetter_plain b Hb) as (-> & _).
Qed.

Lemma letters_no_wide_punct buf :
  Forall (fun b => isLetter b = true) buf -> endsWithWidePunct buf = false.
Proof.
  intros Hletters. destruct (endsWithWidePunct buf) eqn:Hends; [|reflexivity].
  apply endsWithWidePunct_spec in Hends as (pre & Hsuffix).
  assert (exists c1 c2 c3, buf = pre ++ [c1; c2; c3]
                           /\ (c1 = Byte.xe3 \/ c1 = Byte.xef))
    as (c1 & c2 & c3 & -> & Hc1) by (destruct Hsuffix as [->|[->| ->]]; eauto 10).
  apply Forall_app in Hletters as [_ Hlast].
  apply Forall_cons in Hlast as [Hletter _].
  destruct Hc1 as [-> | ->]; discriminate Hletter.
Qed.

Lemma letters_no_flush buf written :
  Forall (fun b => isLetter b = true) (buf ++ written) ->
  (length (buf ++ written) < 16)%nat ->
  shouldFlush (buf ++ written) written = false.
Proof.
  intros Hletters Hlen. rewrite shouldFlush_rules.
  rewrite (letters_no_wide_punct _ Hletters).
  apply Forall_app in Hletters as [_ Hwritten].
  rewrite (letters_no_delimiter _ Hwritten).
  destruct (Nat.leb_spec 16 (length (buf ++ written))); [lia|reflexivity].
Qed.

End Sink.



(** C8. On an accepted append after which the buffer is shorter than 16
    bytes and whose new bytes hold no ASCII delimiter, a buffer ending
    in the three bytes [c1 c2 c3] is flushed exactly when these are
    E3 80 82, EF BC 81 or EF BC 9F; with any other three last bytes the
    append makes no JVM call and the buffer keeps accumulating. *)
Theorem xsputn_wide_punct_rule (g : gmap Z bool) (jni : JniReply) (s : list byte)
    (n : Z) (ctx : StreamContext) (r : Z) (ctx' : StreamContext) (evs : list event)
    (pre : list byte) (c1 c2 c3 : byte) :
  shouldStop ctx = false -> checkCancelFlag (llmPtr ctx) g = false -> 0 < n ->
  xsputn g jni s n ctx = (r, ctx', evs) ->
  let written := take (Z.to_nat n) s in
  let wide := [c1; c2; c3] = [Byte.xe3; Byte.x80; Byte.x82]
              \/ [c1; c2; c3] = [Byte.xef; Byte.xbc; Byte.x81]
              \/ [c1; c2; c3] = [Byte.xef; Byte.xbc; Byte.x9f] in
  (length (buffer ctx ++ written) < 16)%nat ->
  (forall ch, In ch written ->
              ch <> Byte.x0a /\ ch <> Byte.x2e /\ ch <> Byte.x21 /\ ch <> Byte.x3f) ->
  buffer ctx ++ written = pre ++ [c1; c2; c3] ->
  (flushCount evs = 1%nat <-> wide)
  /\ (wide -> reachesConsumer jni ->
      delivered evs = [c_str (pre ++ [c1; c2; c3])] /\ buffer ctx' = [])
  /\ (~ wide -> evs = [] /\ buffer ctx' = pre ++ [c1; c2; c3]).
Proof.
  intros Hstop Hflag Hn Hcall written wide Hshort Hplain Hlast.
  rewrite xsputn_accepted in Hcall by assumption. cbv zeta in Hcall.
  fold written in Hcall. rewrite Hlast in Hcall.
  assert (shouldFlush (pre ++ [c1; c2; c3]) written = true <-> wide) as Hwide.
  { rewrite shouldFlush_true_iff, endsWithWidePunct_suffix. rewrite <- Hlast.
    split; [|tauto]. intros [Hlen|[(ch & Hin & Hdelim)|Hyes]]; [lia| |exact Hyes].
    apply isAsciiDelimiter_spec in Hdelim. specialize (Hplain ch Hin). tauto. }
  destruct (shouldFlush (pre ++ [c1; c2; c3]) written) eqn:Hflush.
  - assert (pre ++ [c1; c2; c3] <> []) as Hne by (by destruct pre).
    injection Hcall as <- <- <-.
    set (ctx1 := {| buffer := pre ++ [c1; c2; c3]; shouldStop := false;
                    llmPtr := llmPtr ctx |}).
    destruct (flushToCallback_live jni ctx1 Hne eq_refl) as (Hcount & _ & Hreach).
    assert wide as Hyes by (by apply Hwide).
    split; [tauto|]. split; [intros _; exact Hreach|tauto].
  - injection Hcall as <- <- <-.
    assert (~ wide) as Hno by (intros Hyes; apply Hwide in Hyes; discriminate).
    split; [split; [discriminate|tauto]|]. split; [tauto|done].
Qed.

Lemma xsputn_wide_punct_rule_witness :
  let ctx := {| buffer := [Byte.x61; Byte.xe3; Byte.x80]; shouldStop := false;
                llmPtr := 7 |} in
  let out := xsputn ∅ (jniOk (Returned true)) [Byte.x82] 1 ctx in
  flushCount out.2 = 1%nat
  /\ delivered out.2 = [[Byte.x61; Byte.xe3; Byte.x80; Byte.x82]].
Proof.
  intros ctx out.
  destruct (xsputn_wide_punct_rule ∅ (jniOk (Returned true)) [Byte.x82] 1 ctx
              out.1.1 out.1.2 out.2 [Byte.x61] Byte.xe3 Byte.x80 Byte.x82)
    as (Hcount & Hdel & _).
  - reflexivity.
  - reflexivity.
  - lia.
  - reflexivity.
  - apply Nat.ltb_lt. reflexivity.
  - intros ch [<-|[]]. repeat split; discriminate.
  - reflexivity.
  - split; [apply Hcount; by left|].
    apply Hdel; [by left|split; [left|]; reflexivity].
Defined.

(** The same bytes with the last one changed do not flush. *)
Example xsputn_other_suffix_keeps :
  xsputn ∅ (jniOk (Returned true)) [Byte.x83] 1
    {| buffer := [Byte.x61; Byte.xe3; Byte.x80]; shouldStop := false; llmPtr := 7 |}
  = (1, {| buffer := [Byte.x61; Byte.xe3; Byte.x80; Byte.x83]; shouldStop := false;
           llmPtr := 7 |}, []).
Proof. reflexivity. Qed.

(** ** The relay: a run of the engine against the sink *)

Section Run.
Implicit Types (st : Relay) (engine rest : list action) (a : action)
  (jni final : JniReply) (tr evs : list event).

Lemma response_cons a rest st : response (a :: rest) st = response rest (step st a).
Proof. reflexivity. Qed.

Lemma delivered_app tr evs : delivered (tr ++ evs) = delivered tr ++ delivered evs.
Proof. apply omap_app. Qed.

Lemma flushCount_app tr evs :
  flushCount (tr ++ evs) = (flushCount tr + flushCount evs)%nat.
Proof. unfold flushCount. by rewrite filter_app, length_app. Qed.

Lemma clearCount_app h tr evs :
  clearCount h (tr ++ evs) = (clearCount h tr + clearCount h evs)%nat.
Proof. unfold clearCount. by rewrite filter_app, length_app. Qed.

(** *** A latched relay stays as it is *)

Lemma step_latched st a :
  shouldStop (context st) = true ->
  context (step st a) = context st
  /\ trace (step st a) = trace st
  /\ accepted (step st a) = accepted st ++ (if isSputn a then [0] else []).
Proof.
  intros Hstop. destruct a as [s n jni|h]; cbn.
  - rewrite xsputn_stopped by assumption. cbn. by rewrite app_nil_r.
  - by rewrite app_nil_r.
Qed.

Lemma response_latched rest st :
  shouldStop (context st) = true ->
  context (response rest st) = context st
  /\ trace (response rest st) = trace st
  /\ accepted (response rest st) = accepted st ++ replicate (writesOf rest) 0.
Proof.
  revert st. induction rest as [|a rest IH]; intros st Hstop.
  - cbn. by rewrite app_nil_r.
  - rewrite response_cons.
    destruct (step_latched st a Hstop) as (Hctx & Htr & Hacc).
    destruct (IH (step st a)) as (Hctx' & Htr' & Hacc'); [by rewrite Hctx|].
    rewrite Hctx', Htr', Hacc', Hctx, Htr, Hacc, <- app_assoc.
    repeat split. f_equal. unfold writesOf.
    destruct a; cbn; reflexivity.
Qed.

Lemma finalFlush_latched final st :
  shouldStop (context st) = true -> finalFlush final st = st.
Proof. intros Hstop. unfold finalFlush. by rewrite Hstop, andb_false_r. Qed.

Lemma finalFlush_accepted final st : accepted (finalFlush final st) = accepted st.
Proof.
  unfold finalFlush. destruct (_ && _); [|reflexivity].
  by destruct (flushToCallback _ _).
Qed.

Lemma finalFlush_flags final st : gCancelFlags (finalFlush final st) = gCancelFlags st.
Proof.
  unfold finalFlush. destruct (_ && _); [|reflexivity].
  by destruct (flushToCallback _ _).
Qed.

Lemma response_accepted_prefix rest st :
  exists rs, accepted (response rest st) = accepted st ++ rs.
Proof.
  revert st. induction rest as [|a rest IH]; intros st.
  - exists []. cbn. by rewrite app_nil_r.
  - rewrite response_cons. destruct (IH (step st a)) as [rs ->].
    destruct a as [s n jni|h]; cbn.
    + destruct (xsputn _ _ _ _ _) as [[r ctx'] evs]. cbn.
      exists (r :: rs). by rewrite <- app_assoc.
    + by exists rs.
Qed.

(** The latch is never released. *)
Lemma step_latch_monotone st a :
  shouldStop (context st) = true -> shouldStop (context (step st a)) = true.
Proof. intros Hstop. by destruct (step_latched st a Hstop) as (-> & _). Qed.

Lemma response_latch_monotone rest st :
  shouldStop (context st) = true -> shouldStop (context (response rest st)) = true.
Proof. intros Hstop. by destruct (response_latched rest st Hstop) as (-> & _). Qed.

End Run.

(** C6. A write that finds the cancellation flag of the request's handle
    set returns zero, appends nothing and makes no JVM call, and it sets
    the latch; every later write of the request, whatever other threads
    do to the table meanwhile, returns zero as well and leaves buffer and
    trace as they were, and the flush at the end of generation does
    nothing. *)
Theorem cancelled_writes_are_dropped (st : Relay) (s : list byte) (n : Z)
    (jni final : JniReply) (rest : list action) :
  checkCancelFlag (llmPtr (context st)) (gCancelFlags st) = true ->
  let st1 := step st (Sputn s n jni) in
  let st2 := response rest st1 in
  (accepted st1 = accepted st ++ [0]
   /\ buffer (context st1) = buffer (context st)
   /\ trace st1 = trace st
   /\ shouldStop (context st1) = true)
  /\ (accepted st2 = accepted st1 ++ replicate (writesOf rest) 0
      /\ buffer (context st2) = buffer (context st)
      /\ trace st2 = trace st)
  /\ finalFlush final st2 = st2.
Proof.
  intros Hflag st1 st2.
  assert (accepted st1 = accepted st ++ [0]
          /\ buffer (context st1) = buffer (context st)
          /\ trace st1 = trace st
          /\ shouldStop (context st1) = true) as Hfirst.
  { unfold st1. cbn. rewrite xsputn_cancelled by assumption. cbn.
    by rewrite app_nil_r. }
  destruct Hfirst as (Hacc & Hbuf & Htr & Hstop).
  destruct (response_latched rest st1 Hstop) as (Hctx' & Htr' & Hacc').
  fold st2 in Hctx', Htr', Hacc'.
  split; [done|]. split.
  - rewrite Hacc', Hctx', Htr'. done.
  - apply finalFlush_latched. by rewrite Hctx'.
Qed.

Lemma cancelled_writes_are_dropped_witness :
  let st := {| gCancelFlags := nativeCancel 7 ∅;
               context := {| buffer := bytes "Hel"; shouldStop := false; llmPtr := 7 |};
               trace := [NewGlobalRef; SetCancelFlag 7 false];
               accepted := [3] |} in
  let st2 := response [Sputn (bytes " there.") 7 (jniOk (Returned true))]
               (step st (Sputn (bytes "lo") 2 (jniOk (Returned true)))) in
  accepted st2 = [3; 0; 0]
  /\ buffer (context st2) = bytes "Hel"
  /\ trace st2 = [NewGlobalRef; SetCancelFlag 7 false]
  /\ finalFlush (jniOk (Returned true)) st2 = st2.
Proof.
  intros st st2.
  destruct (cancelled_writes_are_dropped st (bytes "lo") 2 (jniOk (Returned true))
              (jniOk (Returned true))
              [Sputn (bytes " there.") 7 (jniOk (Returned true))])
    as ((Hacc1 & _) & (Hacc2 & Hbuf & Htr) & Hfinal); [reflexivity|].
  split; [exact (eq_trans Hacc2 (f_equal (fun l => l ++ [0]) Hacc1))|].
  split; [exact Hbuf|]. split; [exact Htr|exact Hfinal].
Defined.

(** ** The consumer's answer *)

Section Stop.
Implicit Types (st : Relay) (rest : list action) (jni final : JniReply)
  (ctx : StreamContext) (tr evs : list event).

(** An answer false of the consumer latches the context. *)
Lemma flushToCallback_stop_answer jni ctx chunk :
  In (CallOnToken chunk (Returned false)) (flushToCallback jni ctx).2 ->
  shouldStop (flushToCallback jni ctx).1 = true.
Proof.
  unfold flushToCallback.
  destruct (_ || _); [intros []|].
  destruct jni as [ge att jt ot].
  destruct ge, att, jt, ot as [[|]| |]; cbn; intros Hin;
    repeat (destruct Hin as [Hin|Hin]; [discriminate Hin|]);
    try (by destruct Hin); by rewrite ?orb_true_r.
Qed.

Lemma xsputn_stop_answer g jni s n ctx chunk :
  In (CallOnToken chunk (Returned false)) (xsputn g jni s n ctx).2 ->
  shouldStop (xsputn g jni s n ctx).1.2 = true.
Proof.
  unfold xsputn. destruct (_ || _); [intros []|].
  destruct (shouldFlush _ _); [|intros []].
  match goal with |- context [flushToCallback ?j ?c] =>
    pose proof (flushToCallback_stop_answer j c chunk) as Hflush;
    destruct (flushToCallback j c) as [ctx2 evs] end.
  exact Hflush.
Qed.

(** The calls of one flush, read against the latch it leaves. *)
Lemma flushToCallback_trace jni ctx :
  shouldStop ctx = false ->
  if shouldStop (flushToCallback jni ctx).1
  then quietAfterStop (flushToCallback jni ctx).2 = true
  else forallb (fun e => negb (isStopAnswer e)) (flushToCallback jni ctx).2 = true.
Proof.
  intros Hstop. unfold flushToCallback. rewrite Hstop, orb_false_r.
  destruct (length (buffer ctx) =? 0)%nat; [cbn; by rewrite Hstop|].
  destruct jni as [ge att jt ot].
  destruct ge, att, jt, ot as [[|]| |]; cbn; rewrite Hstop; reflexivity.
Qed.

Lemma xsputn_trace g jni s n ctx :
  shouldStop ctx = false ->
  if shouldStop (xsputn g jni s n ctx).1.2
  then quietAfterStop (xsputn g jni s n ctx).2 = true
  else forallb (fun e => negb (isStopAnswer e)) (xsputn g jni s n ctx).2 = true.
Proof.
  intros Hstop. unfold xsputn. rewrite Hstop. cbn [orb].
  destruct (checkCancelFlag (llmPtr ctx) g) eqn:Hflag; [reflexivity|].
  destruct (n <=? 0); cbn [orb]; [cbn; by rewrite Hstop|].
  destruct (shouldFlush _ _); [|reflexivity].
  match goal with |- context [flushToCallback ?j ?c] =>
    pose proof (flushToCallback_trace j c eq_refl) as Hflush;
    destruct (flushToCallback j c) as [ctx2 evs] end.
  exact Hflush.
Qed.

Lemma quietAfterStop_no_answer tr :
  forallb (fun e => negb (isStopAnswer e)) tr = true -> quietAfterStop tr = true.
Proof.
  induction tr as [|e tr IH]; [reflexivity|].
  cbn. intros [He Htr]%andb_true_iff.
  apply negb_true_iff in He. rewrite He. by apply IH.
Qed.

Lemma quietAfterStop_app_l tr evs :
  forallb (fun e => negb (isStopAnswer e)) tr = true ->
  quietAfterStop (tr ++ evs) = quietAfterStop evs.
Proof.
  induction tr as [|e tr IH]; [reflexivity|].
  cbn. intros [He Htr]%andb_true_iff.
  apply negb_true_iff in He. rewrite He. by apply IH.
Qed.

Lemma quietAfterStop_app_r tr evs :
  quietAfterStop tr = true ->
  forallb (fun e => negb (isFlushCall e)) evs = true ->
  quietAfterStop (tr ++ evs) = true.
Proof.
  intros Htr Hevs. induction tr as [|e tr IH].
  - cbn. apply quietAfterStop_no_answer.
    induction evs as [|e evs IH]; [reflexivity|].
    cbn in *. apply andb_true_iff in Hevs as [He Hevs].
    rewrite IH by assumption. by destruct e as [| | |? [[|]| |]| | | | |].
  - cbn in *. destruct (isStopAnswer e); [|by apply IH].
    by rewrite forallb_app, Htr, Hevs.
Qed.

(** What [quietAfterStop] says of a trace cut at an answer false. *)
Lemma quietAfterStop_split tr pre chunk post :
  quietAfterStop tr = true ->
  tr = pre ++ CallOnToken chunk (Returned false) :: post ->
  Forall (fun e => isFlushCall e = false) post.
Proof.
  intros Hquiet ->. induction pre as [|e pre IH].
  - cbn in Hquiet. apply Forall_forall. intros e Hin.
    rewrite forallb_forall in Hquiet. apply negb_true_iff, Hquiet.
    by apply list_elem_of_In.
  - cbn in Hquiet. destruct (isStopAnswer e) eqn:He; [|by apply IH].
    rewrite forallb_app in Hquiet. apply andb_true_iff in Hquiet as [_ Hquiet].
    cbn in Hquiet. discriminate Hquiet.
Qed.

Lemma stopInvariant_quiet st : stopInvariant st -> quietAfterStop (trace st) = true.
Proof.
  unfold stopInvariant. destruct (shouldStop _); [done|].
  apply quietAfterStop_no_answer.
Qed.

Lemma step_stopInvariant st a : stopInvariant st -> stopInvariant (step st a).
Proof.
  intros Hinv. destruct (shouldStop (context st)) eqn:Hstop.
  - destruct (step_latched st a Hstop) as (Hctx & Htr & _).
    unfold stopInvariant in *. by rewrite Hctx, Htr.
  - unfold stopInvariant in Hinv. rewrite Hstop in Hinv.
    destruct a as [s n jni|h]; [|unfold stopInvariant; cbn; by rewrite Hstop].
    pose proof (xsputn_trace (gCancelFlags st) jni s n (context st) Hstop) as Hx.
    unfold stopInvariant. cbn.
    destruct (xsputn _ _ _ _ _) as [[r ctx'] evs]. cbn in *.
    destruct (shouldStop ctx').
    + by rewrite quietAfterStop_app_l.
    + by rewrite forallb_app, Hinv, Hx.
Qed.

Lemma response_stopInvariant rest st :
  stopInvariant st -> stopInvariant (response rest st).
Proof.
  revert st. induction rest as [|a rest IH]; intros st Hinv; [exact Hinv|].
  rewrite response_cons. by apply IH, step_stopInvariant.
Qed.

Lemma finalFlush_quiet final st :
  stopInvariant st -> quietAfterStop (trace (finalFlush final st)) = true.
Proof.
  intros Hinv. unfold finalFlush.
  destruct (shouldStop (context st)) eqn:Hstop.
  - rewrite andb_false_r. by apply stopInvariant_quiet.
  - destruct (negb _); cbn [andb negb]; [|by apply stopInvariant_quiet].
    unfold stopInvariant in Hinv. rewrite Hstop in Hinv.
    pose proof (flushToCallback_trace final (context st) Hstop) as Hflush.
    destruct (flushToCallback _ _) as [ctx' evs]. cbn in *.
    rewrite quietAfterStop_app_l by assumption.
    destruct (shouldStop ctx'); [done|by apply quietAfterStop_no_answer].
Qed.

Lemma nativeGenerateStream_quiet h setup engine exit final (g : gmap Z bool) :
  quietAfterStop (calls (nativeGenerateStream h setup engine exit final g)) = true.
Proof.
  unfold nativeGenerateStream.
  destruct (h =? 0); [reflexivity|].
  destruct setup; try reflexivity.
  assert (stopInvariant (response engine (beginStream h g))) as Hinv
    by (by apply response_stopInvariant).
  destruct exit; cbn [calls]; apply quietAfterStop_app_r; try reflexivity.
  - by apply finalFlush_quiet.
  - by apply stopInvariant_quiet.
  - by apply stopInvariant_quiet.
Qed.

End Stop.

Lemma delivered_no_flush_call (evs : list event) :
  Forall (fun e => isFlushCall e = false) evs -> delivered evs = [].
Proof.
  induction 1 as [|e evs He _ IH]; [reflexivity|].
  destruct e; try discriminate He; exact IH.
Qed.

(** C4. In the calls of a request, an answer false of the consumer is
    followed by no call of a flush, hence by no further delivery. When
    the answer is given during a write, the latch is set by that write,
    every later write returns zero and adds nothing to the trace, and
    the flush at the end of generation is skipped. *)
Theorem consumer_false_ends_delivery :
  (forall h setup engine exit final (g : gmap Z bool) pre chunk post,
      calls (nativeGenerateStream h setup engine exit final g)
      = pre ++ CallOnToken chunk (Returned false) :: post ->
      Forall (fun e => isFlushCall e = false) post /\ delivered post = [])
  /\ (forall st s n jni chunk rest final,
        In (CallOnToken chunk (Returned false))
           (xsputn (gCancelFlags st) jni s n (context st)).2 ->
        let st1 := step st (Sputn s n jni) in
        let st2 := response rest st1 in
        shouldStop (context st1) = true
        /\ accepted st2 = accepted st1 ++ replicate (writesOf rest) 0
        /\ trace st2 = trace st1
        /\ finalFlush final st2 = st2).
Proof.
  split.
  - intros h setup engine exit final g pre chunk post Hcalls.
    assert (Forall (fun e => isFlushCall e = false) post) as Hquiet.
    { eapply quietAfterStop_split; [|exact Hcalls].
      apply nativeGenerateStream_quiet. }
    split; [exact Hquiet|by apply delivered_no_flush_call].
  - intros st s n jni chunk rest final Hin st1 st2.
    assert (shouldStop (context st1) = true) as Hstop.
    { apply xsputn_stop_answer in Hin. unfold st1. cbn.
      by destruct (xsputn _ _ _ _ _) as [[r ctx'] evs]. }
    destruct (response_latched rest st1 Hstop) as (Hctx & Htr & Hacc).
    fold st2 in Hctx, Htr, Hacc.
    split; [exact Hstop|]. split; [exact Hacc|]. split; [exact Htr|].
    apply finalFlush_latched. by rewrite Hctx.
Qed.

Lemma consumer_false_ends_delivery_witness :
  let stop := jniOk (Returned false) in
  let go := jniOk (Returned true) in
  let engine := [Sputn (bytes "Hello. ") 7 stop; Sputn (bytes " there") 6 go] in
  calls (nativeGenerateStream 7 SetupOk engine Returns go ∅)
  = [NewGlobalRef; SetCancelFlag 7 false; GetEnv JNI_OK;
     NewStringUTF (bytes "Hello. ") true]
    ++ CallOnToken (bytes "Hello. ") (Returned false)
    :: [DeleteGlobalRef; ClearCancelFlag 7]
  /\ delivered [DeleteGlobalRef; ClearCancelFlag 7] = []
  /\ accepted (response [Sputn (bytes " there") 6 go]
                 (step (beginStream 7 ∅) (Sputn (bytes "Hello. ") 7 stop)))
     = [7; 0].
Proof.
  intros stop go engine.
  destruct consumer_false_ends_delivery as [Htrace Hstate].
  split; [reflexivity|]. split.
  - apply (Htrace 7 SetupOk engine Returns go ∅
             [NewGlobalRef; SetCancelFlag 7 false; GetEnv JNI_OK;
              NewStringUTF (bytes "Hello. ") true]
             (bytes "Hello. ") [DeleteGlobalRef; ClearCancelFlag 7]).
    reflexivity.
  - destruct (Hstate (beginStream 7 ∅) (bytes "Hello. ") 7 stop (bytes "Hello. ")
                [Sputn (bytes " there") 6 go] go) as (_ & Hacc & _).
    + right. right. left. reflexivity.
    + exact Hacc.
Defined.

(** ** Registration and teardown of the flag *)

Section Teardown.
Implicit Types (st : Relay) (rest engine : list action) (h : Z).

Lemma flushToCallback_no_clear h jni ctx :
  clearCount h (flushToCallback jni ctx).2 = 0%nat.
Proof.
  unfold flushToCallback. destruct (_ || _); [reflexivity|].
  destruct jni as [ge att jt ot].
  destruct ge, att, jt, ot as [[|]| |]; reflexivity.
Qed.

Lemma step_clearCount h st a : clearCount h (trace (step st a)) = clearCount h (trace st).
Proof.
  destruct a as [s n jni|h']; [|reflexivity].
  cbn. unfold xsputn.
  destruct (_ || _); [cbn; by rewrite app_nil_r|].
  destruct (shouldFlush _ _); [|cbn; by rewrite app_nil_r].
  match goal with |- context [flushToCallback ?j ?c] =>
    pose proof (flushToCallback_no_clear h j c) as Hflush;
    destruct (flushToCallback j c) as [ctx2 evs] end.
  cbn [trace fst snd] in *. rewrite clearCount_app, Hflush. lia.
Qed.

Lemma response_clearCount h rest st :
  clearCount h (trace (response rest st)) = clearCount h (trace st).
Proof.
  revert st. induction rest as [|a rest IH]; intros st; [reflexivity|].
  by rewrite response_cons, IH, step_clearCount.
Qed.

Lemma finalFlush_clearCount h final st :
  clearCount h (trace (finalFlush final st)) = clearCount h (trace st).
Proof.
  unfold finalFlush. destruct (_ && _); [|reflexivity].
  pose proof (flushToCallback_no_clear h final (context st)) as Hflush.
  destruct (flushToCallback _ _) as [ctx' evs]. cbn [trace fst snd] in *.
  rewrite clearCount_app, Hflush. lia.
Qed.

Lemma clearCount_tail h :
  clearCount h [DeleteGlobalRef; ClearCancelFlag h] = 1%nat.
Proof. unfold clearCount. cbn. rewrite Z.eqb_refl. reflexivity. Qed.

Lemma clearCount_begin h (g : gmap Z bool) :
  clearCount h (trace (beginStream h g)) = 0%nat.
Proof. reflexivity. Qed.

End Teardown.

(** C5, as stated, fails: with a non-zero handle whose entry an earlier
    cancel left in the table, a request that cannot obtain the JavaVM
    returns false without clearing the flag. *)
Lemma nativeGenerateStream_setup_failure_keeps_flag :
  let o := nativeGenerateStream 1 GetJavaVMFailed [] Returns
             (jniOk (Returned true)) (nativeCancel 1 ∅) in
  result o = false
  /\ flagsAfter o !! 1 = Some true
  /\ clearCount 1 (calls o) = 0%nat.
Proof. repeat split. Qed.

(** C5, amended. A request with a non-zero handle whose JNI setup
    succeeds clears the flag of its handle exactly once, as its last
    step, on the normal return, on a [std::exception] and on any other
    exception of the engine alike, and the table has no entry for the
    handle when it returns. A request whose setup fails returns false
    before the flag is registered and leaves the table as it found it. *)
Theorem nativeGenerateStream_clears_flag_once (h : Z) (setup : SetupResult)
    (engine : list action) (exit : EngineExit) (final : JniReply) (g : gmap Z bool) :
  h <> 0 ->
  let o := nativeGenerateStream h setup engine exit final g in
  match setup with
  | SetupOk =>
      flagsAfter o !! h = None
      /\ clearCount h (calls o) = 1%nat
      /\ (exists tr, calls o = tr ++ [ClearCancelFlag h])
      /\ result o = match exit with Returns => true | _ => false end
  | _ => flagsAfter o = g /\ calls o = [] /\ result o = false
  end.
Proof.
  intros Hh o. unfold o, nativeGenerateStream.
  destruct (Z.eqb_spec h 0) as [->|_]; [contradiction|].
  destruct setup; try done.
  destruct exit; cbn [flagsAfter calls result]; unfold clearCancelFlag;
    (split; [apply lookup_delete_eq|]);
    rewrite clearCount_app, clearCount_tail,
      ?finalFlush_clearCount, response_clearCount, clearCount_begin;
    (split; [reflexivity|]); (split; [|reflexivity]).
  - exists (trace (finalFlush final (response engine (beginStream h g)))
            ++ [DeleteGlobalRef]).
    by rewrite <- app_assoc.
  - exists (trace (response engine (beginStream h g)) ++ [DeleteGlobalRef]).
    by rewrite <- app_assoc.
  - exists (trace (response engine (beginStream h g)) ++ [DeleteGlobalRef]).
    by rewrite <- app_assoc.
Qed.

Lemma nativeGenerateStream_clears_flag_once_witness :
  let o := nativeGenerateStream 7 SetupOk
             [Sputn (bytes "Hello. ") 7 (jniOk (Returned true)); OtherThreadCancel 7;
              Sputn (bytes " there") 6 (jniOk (Returned true))]
             ThrowsStdException (jniOk (Returned true)) ∅ in
  flagsAfter o !! 7 = None
  /\ clearCount 7 (calls o) = 1%nat
  /\ (exists tr, calls o = tr ++ [ClearCancelFlag 7])
  /\ result o = false.
Proof.
  apply (nativeGenerateStream_clears_flag_once 7 SetupOk
           [Sputn (bytes "Hello. ") 7 (jniOk (Returned true)); OtherThreadCancel 7;
            Sputn (bytes " there") 6 (jniOk (Returned true))]
           ThrowsStdException (jniOk (Returned true)) ∅).
  lia.
Defined.

(** ** Conservation of the text *)

Section Conservation.
Implicit Types (st : Relay) (rest engine : list action) (jni final : JniReply)
  (ctx : StreamContext) (tr evs : list event).

Lemma no_failure_forallb evs :
  Forall (fun e => isFailedCall e = false) evs ->
  forallb (fun e => negb (isFailedCall e)) evs = true.
Proof.
  induction 1 as [|e evs He _ IH]; [reflexivity|].
  cbn. by rewrite He, IH.
Qed.

(** A flush without failed JVM call hands the whole buffer over. *)
Lemma flushToCallback_conserves jni ctx :
  forallb (fun e => negb (isFailedCall e)) (flushToCallback jni ctx).2 = true ->
  Forall (fun b => isNul b = false) (buffer ctx) ->
  concat (delivered (flushToCallback jni ctx).2) ++ buffer (flushToCallback jni ctx).1
  = buffer ctx
  /\ (shouldStop ctx = false -> buffer (flushToCallback jni ctx).1 = []).
Proof.
  intros Hok Hnul. apply c_str_no_nul in Hnul. revert Hok.
  unfold flushToCallback.
  destruct (buffer ctx) as [|b0 buf] eqn:Ebuf; [cbn; by rewrite Ebuf|].
  cbn [length Nat.eqb orb].
  destruct (shouldStop ctx) eqn:Hstop; [cbn; by rewrite Ebuf|].
  destruct jni as [ge att jt ot].
  destruct ge, att, jt, ot as [[|]| |]; cbn [getEnvResult attachOk deliver
    jtokenNonNull onToken fst snd forallb isFailedCall negb andb app];
    try discriminate; intros _; rewrite ?Ebuf, ?Hnul; cbn; by rewrite ?app_nil_r.
Qed.

Lemma xsputn_conserves g jni s n ctx :
  shouldStop (xsputn g jni s n ctx).1.2 = false ->
  forallb (fun e => negb (isFailedCall e)) (xsputn g jni s n ctx).2 = true ->
  Forall (fun b => isNul b = false) (buffer ctx ++ take (Z.to_nat n) s) ->
  concat (delivered (xsputn g jni s n ctx).2) ++ buffer (xsputn g jni s n ctx).1.2
  = buffer ctx ++ take (Z.to_nat n) s.
Proof.
  unfold xsputn.
  destruct (shouldStop ctx) eqn:Hstop.
  { cbn. destruct (checkCancelFlag _ _); cbn; congruence. }
  destruct (checkCancelFlag (llmPtr ctx) g) eqn:Hflag; [cbn; discriminate|].
  destruct (Z.leb_spec n 0) as [Hn|Hn]; cbn [orb].
  { intros _ _ _. replace (Z.to_nat n) with 0%nat by lia.
    cbn. by rewrite app_nil_r. }
  destruct (shouldFlush _ _); [|by cbn].
  match goal with |- context [flushToCallback ?j ?c] =>
    pose proof (flushToCallback_conserves j c) as Hflush;
    destruct (flushToCallback j c) as [ctx2 evs] end.
  cbn in *. intros _ Hok Hnul. by destruct (Hflush Hok Hnul).
Qed.

Lemma response_trace_prefix rest st :
  exists evs, trace (response rest st) = trace st ++ evs.
Proof.
  revert st. induction rest as [|a rest IH]; intros st.
  - exists []. cbn. by rewrite app_nil_r.
  - rewrite response_cons. destruct (IH (step st a)) as [evs ->].
    destruct a as [s n jni|h]; cbn.
    + destruct (xsputn _ _ _ _ _) as [[r ctx'] evs']. cbn.
      exists (evs' ++ evs). by rewrite <- app_assoc.
    + by exists evs.
Qed.

Lemma step_conserves st a :
  shouldStop (context (step st a)) = false ->
  forallb (fun e => negb (isFailedCall e)) (trace (step st a)) = true ->
  Forall (fun b => isNul b = false) (buffer (context st) ++ actionBytes a) ->
  concat (delivered (trace (step st a))) ++ buffer (context (step st a))
  = concat (delivered (trace st)) ++ buffer (context st) ++ actionBytes a
  /\ Forall (fun b => isNul b = false) (buffer (context (step st a))).
Proof.
  destruct a as [s n jni|h].
  2:{ cbn. intros _ _ Hnul. by rewrite app_nil_r in *. }
  cbn [step actionBytes].
  pose proof (xsputn_conserves (gCancelFlags st) jni s n (context st)) as Hx.
  destruct (xsputn _ _ _ _ _) as [[r ctx'] evs]. cbn [fst snd context trace] in *.
  intros Hstop Hok Hnul.
  rewrite forallb_app in Hok. apply andb_true_iff in Hok as [_ Hok].
  specialize (Hx Hstop Hok Hnul). split.
  - by rewrite delivered_app, concat_app, <- app_assoc, Hx.
  - rewrite <- Hx in Hnul. by apply Forall_app in Hnul as [_ ?].
Qed.

Lemma response_conserves rest st :
  shouldStop (context (response rest st)) = false ->
  forallb (fun e => negb (isFailedCall e)) (trace (response rest st)) = true ->
  Forall (fun b => isNul b = false) (buffer (context st) ++ engineText rest) ->
  concat (delivered (trace (response rest st))) ++ buffer (context (response rest st))
  = concat (delivered (trace st)) ++ buffer (context st) ++ engineText rest
  /\ Forall (fun b => isNul b = false) (buffer (context (response rest st))).
Proof.
  revert st. induction rest as [|a rest IH]; intros st Hstop Hok Hnul.
  - cbn in *. by rewrite app_nil_r in *.
  - rewrite response_cons in *.
    change (engineText (a :: rest)) with (actionBytes a ++ engineText rest) in *.
    assert (shouldStop (context (step st a)) = false) as Hstop1.
    { destruct (shouldStop (context (step st a))) eqn:E; [|reflexivity].
      by rewrite (response_latch_monotone rest _ E) in Hstop. }
    assert (forallb (fun e => negb (isFailedCall e)) (trace (step st a)) = true)
      as Hok1.
    { destruct (response_trace_prefix rest (step st a)) as [evs Hevs].
      rewrite Hevs, forallb_app in Hok. by apply andb_true_iff in Hok as [? _]. }
    rewrite app_assoc in Hnul. apply Forall_app in Hnul as [Hnul1 Hnul2].
    destruct (step_conserves st a Hstop1 Hok1 Hnul1) as [Hstep Hnul'].
    destruct (IH (step st a) Hstop Hok) as [Hrest Hnul''].
    { apply Forall_app. by split. }
    split; [|exact Hnul''].
    by rewrite Hrest, app_assoc, Hstep, <- !app_assoc.
Qed.

Lemma finalFlush_conserves final st :
  shouldStop (context st) = false ->
  forallb (fun e => negb (isFailedCall e)) (trace (finalFlush final st)) = true ->
  Forall (fun b => isNul b = false) (buffer (context st)) ->
  concat (delivered (trace (finalFlush final st)))
  = concat (delivered (trace st)) ++ buffer (context st).
Proof.
  intros Hstop Hok Hnul. revert Hok. unfold finalFlush. rewrite Hstop.
  destruct (buffer (context st)) as [|b0 buf] eqn:Ebuf;
    [cbn; by rewrite app_nil_r|].
  cbn [length Nat.eqb negb andb].
  pose proof (flushToCallback_conserves final (context st)) as Hflush.
  destruct (flushToCallback _ _) as [ctx' evs]. cbn [trace fst snd] in *.
  rewrite forallb_app. intros [_ Hok]%andb_true_iff.
  rewrite Ebuf in Hflush. destruct (Hflush Hok Hnul) as [Hcat Hempty].
  rewrite (Hempty Hstop), app_nil_r in Hcat.
  by rewrite delivered_app, concat_app, Hcat.
Qed.

End Conservation.

(** C1, as stated, fails: the request below completes and returns true,
    no cancel is made and the latch stays open, but [NewStringUTF]
    returns null at its only flush, the buffer is cleared, and the
    consumer receives nothing of the three bytes the engine wrote. *)
Lemma nativeGenerateStream_drops_chunk_without_jstring :
  let jni := {| getEnvResult := JNI_OK; attachOk := true; jtokenNonNull := false;
                onToken := Returned true |} in
  let engine := [Sputn (bytes "Hi.") 3 jni] in
  let o := nativeGenerateStream 1 SetupOk engine Returns jni ∅ in
  result o = true
  /\ latch o = false
  /\ returned o = [3]
  /\ engineText engine = bytes "Hi."
  /\ delivered (calls o) = []
  /\ concat (delivered (calls o)) <> engineText engine.
Proof. repeat split. discriminate. Qed.

(** The same happens for a NUL byte in the text, where [c_str] ends the
    chunk, and when the thread cannot be attached at the last flush. *)
Example nativeGenerateStream_truncates_at_nul :
  let go := jniOk (Returned true) in
  let engine := [Sputn [Byte.x61; Byte.x00; Byte.x62; Byte.x2e] 4 go] in
  delivered (calls (nativeGenerateStream 1 SetupOk engine Returns go ∅))
  = [[Byte.x61]].
Proof. reflexivity. Qed.

Example nativeGenerateStream_last_flush_not_attached :
  let detached := {| getEnvResult := JNI_EDETACHED; attachOk := false;
                     jtokenNonNull := true; onToken := Returned true |} in
  let engine := [Sputn (bytes "Hi") 2 detached] in
  let o := nativeGenerateStream 1 SetupOk engine Returns detached ∅ in
  result o = true /\ latch o = false /\ delivered (calls o) = [].
Proof. repeat split. Qed.


(** ** Sixteen letters, however the engine splits them *)

Section Letters.
Implicit Types (st : Relay) (rest engine : list action) (final : JniReply).

(** Writes without bytes on an empty buffer make no JVM call, and
    neither does the flush at the end. *)
Lemma response_no_text rest st final :
  buffer (context st) = [] -> engineText rest = [] ->
  trace (finalFlush final (response rest st)) = trace st.
Proof.
  revert st. induction rest as [|a rest IH]; intros st Hbuf Htext.
  - cbn. unfold finalFlush. by rewrite Hbuf.
  - change (engineText (a :: rest)) with (actionBytes a ++ engineText rest) in Htext.
    apply app_eq_nil in Htext as [Ha Hrest].
    rewrite response_cons.
    assert (buffer (context (step st a)) = [] /\ trace (step st a) = trace st)
      as [Hbuf' Htr'].
    { destruct a as [s n jni|h]; [|by cbn].
      cbn in Ha. cbn. unfold xsputn. rewrite Ha, Hbuf.
      destruct (_ || _).
      - cbn. rewrite app_nil_r. by destruct (checkCancelFlag _ _).
      - cbn. by rewrite app_nil_r. }
    by rewrite IH.
Qed.

(** Sixteen letters written to a fresh buffer, in any number of writes,
    reach the consumer as one chunk of these sixteen bytes, after one
    flush. *)
Lemma letters_one_flush engine st final :
  shouldStop (context st) = false ->
  checkCancelFlag (llmPtr (context st)) (gCancelFlags st) = false ->
  Forall (undisturbed (llmPtr (context st))) engine ->
  reachesConsumer final ->
  Forall (fun b => isLetter b = true) (buffer (context st) ++ engineText engine) ->
  length (buffer (context st) ++ engineText engine) = 16%nat ->
  let st' := finalFlush final (response engine st) in
  delivered (trace st')
  = delivered (trace st) ++ [buffer (context st) ++ engineText engine]
  /\ flushCount (trace st') = (flushCount (trace st) + 1)%nat.
Proof.
  revert st. induction engine as [|a rest IH];
    intros st Hstop Hflag Hgood Hfinal Hletters Hlen st'.
  - unfold st'. change (engineText []) with (@nil byte) in *.
    rewrite app_nil_r in *. cbn [response fold_left]. unfold finalFlush.
    assert (buffer (context st) <> []) as Hne by (intros E; by rewrite E in Hlen).
    destruct (buffer (context st)) as [|b0 buf] eqn:Ebuf; [done|].
    rewrite Hstop. cbn [length Nat.eqb negb andb].
    destruct (flushToCallback_live final (context st)) as (Hcount & _ & Hreach);
      [by rewrite Ebuf|assumption|].
    destruct (Hreach Hfinal) as [Hdel _].
    destruct (flushToCallback _ _) as [ctx' evs]. cbn [trace fst snd] in *.
    rewrite delivered_app, flushCount_app, Hdel, Hcount, Ebuf.
    rewrite c_str_no_nul by (by apply letters_no_nul). done.
  - change (engineText (a :: rest)) with (actionBytes a ++ engineText rest) in *.
    apply Forall_cons in Hgood as [Ha Hgood].
    unfold st'. rewrite response_cons.
    destruct a as [s n jni|h'].
    2:{ cbn [actionBytes app undisturbed] in *.
        apply (IH (step st (OtherThreadCancel h'))); cbn [step context gCancelFlags];
          try assumption.
        by rewrite checkCancelFlag_nativeCancel_ne. }
    cbn [actionBytes undisturbed] in *.
    destruct (Z.leb_spec n 0) as [Hn|Hn].
    { replace (Z.to_nat n) with 0%nat in * by lia.
      change (take 0 s ++ engineText rest) with (engineText rest) in *.
      assert (step st (Sputn s n jni)
              = {| gCancelFlags := gCancelFlags st; context := context st;
                   trace := trace st; accepted := accepted st ++ [0] |}) as ->.
      { cbn. rewrite xsputn_empty by assumption. by rewrite app_nil_r. }
      by apply (IH {| gCancelFlags := gCancelFlags st; context := context st;
                      trace := trace st; accepted := accepted st ++ [0] |}). }
    set (written := take (Z.to_nat n) s) in *.
    set (buf := buffer (context st) ++ written).
    rewrite app_assoc in Hletters, Hlen. fold buf in Hletters, Hlen.
    pose proof Hletters as Hbufletters. apply Forall_app in Hbufletters as [Hbl _].
    cbn [step]. rewrite xsputn_accepted by assumption. cbv zeta.
    fold written. fold buf.
    destruct (Nat.lt_ge_cases (length buf) 16) as [Hshort|Hfull].
    + pose proof (letters_no_flush (buffer (context st)) written Hbl Hshort) as Hkeep.
      fold buf in Hkeep. rewrite Hkeep, app_nil_r.
      match goal with |- context [finalFlush final (response rest ?s1)] =>
        destruct (IH s1) as [Hdel Hcount] end; cbn [context gCancelFlags trace buffer
          llmPtr shouldStop]; try done.
      cbn [context trace buffer] in Hdel, Hcount.
      rewrite Hdel, Hcount. by rewrite app_assoc.
    + rewrite length_app in Hlen.
      assert (engineText rest = []) as Hrest
        by (apply length_zero_iff_nil; lia).
      assert (length buf = 16%nat) as Hlen16 by lia.
      assert (shouldFlush buf written = true) as ->.
      { apply shouldFlush_true_iff. left. lia. }
      set (ctx1 := {| buffer := buf; shouldStop := false;
                      llmPtr := llmPtr (context st) |}).
      destruct (flushToCallback_live jni ctx1) as (Hcount & _ & Hreach);
        [intros E; cbn in E; by rewrite E in Hlen16|reflexivity|].
      destruct (Hreach Ha) as [Hdel Hempty].
      destruct (flushToCallback jni ctx1) as [ctx2 evs]. cbn [fst snd] in *.
      rewrite response_no_text by assumption. cbn [trace].
      rewrite delivered_app, flushCount_app, Hdel, Hcount, Hrest, app_nil_r.
      cbn [buffer ctx1]. rewrite c_str_no_nul by (by apply letters_no_nul). done.
Qed.

End Letters.

(** Sixteen single letters: one chunk, handed over by the sixteenth
    write. *)
Example sixteen_letters_one_chunk :
  let go := jniOk (Returned true) in
  let engine := map (fun b => Sputn [b] 1 go) (bytes "abcdefghijklmnop") in
  let o := nativeGenerateStream 7 SetupOk engine Returns go ∅ in
  delivered (calls o) = [bytes "abcdefghijklmnop"]
  /\ flushCount (calls o) = 1%nat
  /\ returned o = replicate 16 1.
Proof. repeat split. Qed.

(** * Further properties of the wrappers *)

(** ** The table, seen from two handles *)

(** X1. A flag that was set is the flag that is read, and setting or
    clearing the flag of one handle leaves what is read for another
    handle as it was; a set before a clear and a clear before a set are
    absorbed by the later operation. *)
Theorem cancel_table_round_trip (h h' : Z) (b : bool) (g : gmap Z bool) :
  h' <> h ->
  checkCancelFlag h (setCancelFlag h b g) = b
  /\ checkCancelFlag h' (setCancelFlag h b g) = checkCancelFlag h' g
  /\ checkCancelFlag h' (clearCancelFlag h g) = checkCancelFlag h' g
  /\ clearCancelFlag h (setCancelFlag h b g) = clearCancelFlag h g
  /\ setCancelFlag h b (clearCancelFlag h g) = setCancelFlag h b g.
Proof.
  intros Hne. split; [apply checkCancelFlag_set|].
  split; [by apply checkCancelFlag_set_ne|].
  unfold checkCancelFlag, clearCancelFlag, setCancelFlag.
  split; [by rewrite lookup_delete_ne|].
  split; [apply delete_insert_eq|apply insert_delete_eq].
Qed.

Lemma cancel_table_round_trip_witness :
  checkCancelFlag 7 (setCancelFlag 7 true ∅) = true
  /\ checkCancelFlag 9 (setCancelFlag 7 true (setCancelFlag 9 false ∅)) = false
  /\ checkCancelFlag 9 (clearCancelFlag 7 (setCancelFlag 9 true ∅)) = true.
Proof.
  destruct (cancel_table_round_trip 7 9 true ∅) as (Hset & _); [lia|].
  destruct (cancel_table_round_trip 7 9 true (setCancelFlag 9 false ∅))
    as (_ & Hother & _); [lia|].
  destruct (cancel_table_round_trip 7 9 true (setCancelFlag 9 true ∅))
    as (_ & _ & Hclear & _); [lia|].
  split; [exact Hset|]. split; [exact Hother|exact Hclear].
Defined.

Lemma checkCancelFlag_nativeCancel_true (h h' : Z) (g : gmap Z bool) :
  checkCancelFlag h' g = true -> checkCancelFlag h' (nativeCancel h g) = true.
Proof.
  intros Hset. unfold nativeCancel. destruct (h =? 0); [exact Hset|].
  destruct (decide (h = h')) as [->|Hne].
  - apply checkCancelFlag_set.
  - by rewrite checkCancelFlag_set_ne.
Qed.

(** X2. A cancel of a non-zero handle is read as set by the next poll
    of that handle, is absorbed by a second cancel of the same handle,
    commutes with the cancel of any other handle, disturbs no other
    handle, and never lowers a flag that was up. *)
Theorem nativeCancel_raises_flag (h h' : Z) (g : gmap Z bool) :
  h <> 0 ->
  checkCancelFlag h (nativeCancel h g) = true
  /\ nativeCancel h (nativeCancel h g) = nativeCancel h g
  /\ nativeCancel h (nativeCancel h' g) = nativeCancel h' (nativeCancel h g)
  /\ (h' <> h -> checkCancelFlag h' (nativeCancel h g) = checkCancelFlag h' g)
  /\ (checkCancelFlag h' g = true -> checkCancelFlag h' (nativeCancel h g) = true).
Proof.
  intros Hh. rewrite !(nativeCancel_nonzero h) by assumption.
  split; [apply checkCancelFlag_set|]. split; [apply setCancelFlag_twice|].
  split.
  - unfold nativeCancel. destruct (h' =? 0); [reflexivity|].
    unfold setCancelFlag. apply map_eq. intros k.
    rewrite !lookup_insert. by repeat case_decide.
  - split; [intros Hne; by apply checkCancelFlag_set_ne|].
    intros Hup. rewrite <- (nativeCancel_nonzero h) by assumption.
    by apply checkCancelFlag_nativeCancel_true.
Qed.

Lemma nativeCancel_raises_flag_witness :
  checkCancelFlag 7 (nativeCancel 7 ∅) = true
  /\ nativeCancel 7 (nativeCancel 9 ∅) = nativeCancel 9 (nativeCancel 7 ∅)
  /\ checkCancelFlag 9 (nativeCancel 7 ∅) = false.
Proof.
  destruct (nativeCancel_raises_flag 7 9 ∅) as (Hset & _ & Hcomm & Hother & _); [lia|].
  split; [exact Hset|]. split; [exact Hcomm|].
  rewrite Hother; [reflexivity|lia].
Defined.

(** ** One call of the sink, whatever its outcome *)

(** X3. [xsputn] accepts a write whole or not at all: it returns [n]
    when [n > 0], the latch is open and the flag of the handle is not
    set, whatever happens in the flush it may run, and 0 otherwise; when
    it returns 0 for a write of [n > 0] bytes the buffer is as before
    and no JVM call is made. *)
Theorem xsputn_all_or_nothing (g : gmap Z bool) (jni : JniReply) (s : list byte)
    (n : Z) (ctx : StreamContext) :
  0 < n ->
  let out := xsputn g jni s n ctx in
  (out.1.1 = n <-> shouldStop ctx = false /\ checkCancelFlag (llmPtr ctx) g = false)
  /\ (out.1.1 = 0 <-> shouldStop ctx = true \/ checkCancelFlag (llmPtr ctx) g = true)
  /\ (out.1.1 = 0 -> buffer out.1.2 = buffer ctx /\ out.2 = []).
Proof.
  intros Hn out. unfold out.
  destruct (shouldStop ctx) eqn:Hstop.
  { rewrite xsputn_stopped by assumption. cbn.
    split; [split; [lia|intros [? _]; discriminate]|]. split; [tauto|done]. }
  destruct (checkCancelFlag (llmPtr ctx) g) eqn:Hflag.
  { rewrite xsputn_cancelled by assumption. cbn.
    split; [split; [lia|intros [_ ?]; discriminate]|]. split; [tauto|done]. }
  rewrite xsputn_accepted by assumption. cbv zeta.
  destruct (shouldFlush _ _); cbn [fst snd];
    (split; [tauto|]); (split; [split; [lia|intros [?|?]; discriminate]|lia]).
Qed.

Lemma xsputn_all_or_nothing_witness :
  let ctx := {| buffer := bytes "Hel"; shouldStop := false; llmPtr := 7 |} in
  (xsputn (nativeCancel 7 ∅) (jniOk (Returned true)) (bytes "lo.") 3 ctx).1.1 = 0
  /\ (xsputn ∅ (jniOk (Returned false)) (bytes "lo.") 3 ctx).1.1 = 3.
Proof.
  intros ctx.
  destruct (xsputn_all_or_nothing (nativeCancel 7 ∅) (jniOk (Returned true))
              (bytes "lo.") 3 ctx) as (_ & Hzero & _); [lia|].
  destruct (xsputn_all_or_nothing ∅ (jniOk (Returned false)) (bytes "lo.") 3 ctx)
    as (Hwhole & _); [lia|].
  split; [apply Hzero; by right|apply Hwhole; by split].
Defined.

(** ** Element type and data of a variable *)

Module InputVarFacts.
Import InputVar ModuleNative.

(** X4. The packed element type is decoded without loss: whatever the
    integer types of the fields, as long as they hold the values 0 to
    255 unchanged, a type code and a bit width both below 256 packed as
    [code * 256 + bits] are read back as they were, with one lane; the
    bit width read from any argument lies in 0..255, and an argument in
    0..65535 is the packing of what is read from it. *)
Theorem dtypeOf_unpacks (toCode toBits : Z -> Z) (c b dataType : Z) :
  (forall x, 0 <= x < 256 -> toCode x = x) ->
  (forall x, 0 <= x < 256 -> toBits x = x) ->
  0 <= c < 256 -> 0 <= b < 256 ->
  dtypeOf toCode toBits (c * 256 + b) = {| code := c; bits := b; lanes := 1 |}
  /\ 0 <= bits (dtypeOf toCode toBits dataType) < 256
  /\ (0 <= dataType < 65536 ->
      0 <= code (dtypeOf toCode toBits dataType) < 256
      /\ code (dtypeOf toCode toBits dataType) * 256
         + bits (dtypeOf toCode toBits dataType) = dataType).
Proof.
  intros Hcode Hbits Hc Hb. unfold dtypeOf. cbn [code bits].
  assert (forall x, Z.shiftr x 8 = x / 256) as Hshift
    by (intros x; rewrite Z.shiftr_div_pow2 by lia; reflexivity).
  assert (forall x, Z.land x 255 = x mod 256) as Hmask
    by (intros x; change 255 with (Z.ones 8); rewrite Z.land_ones by lia;
        reflexivity).
  rewrite !Hshift, !Hmask.
  assert (forall x, 0 <= x mod 256 < 256) as Hlow
    by (intros x; apply Z.mod_pos_bound; lia).
  rewrite !(Hbits (_ mod 256)) by apply Hlow.
  split; [|split].
  - assert ((c * 256 + b) / 256 = c) as ->
      by (rewrite Z.add_comm, Z.div_add by lia; rewrite Z.div_small by lia; lia).
    assert ((c * 256 + b) mod 256 = b) as ->
      by (rewrite Z.add_comm, Z.mod_add by lia; apply Z.mod_small; lia).
    by rewrite Hcode.
  - apply Hlow.
  - intros Hrange.
    assert (0 <= dataType / 256 < 256) as Hhigh
      by (split; [apply Z.div_pos; lia|apply Z.div_lt_upper_bound; lia]).
    rewrite (Hcode _ Hhigh). split; [exact Hhigh|].
    pose proof (Z.div_mod dataType 256). lia.
Qed.

Lemma dtypeOf_unpacks_witness :
  dtypeOf toUint8 toUint8 544 = {| code := 2; bits := 32; lanes := 1 |}
  /\ code (dtypeOf toUint8 toUint8 32) * 256 + bits (dtypeOf toUint8 toUint8 32) = 32.
Proof.
  destruct (dtypeOf_unpacks toUint8 toUint8 2 32 32) as (Hfloat & _ & Hint);
    [intros x Hx; apply Z.mod_small; lia|intros x Hx; apply Z.mod_small; lia
    |lia|lia|].
  split; [exact Hfloat|]. apply Hint. lia.
Defined.

(** With fields of eight bits, what lies above the sixteenth bit of the
    argument is dropped, and a negative argument is read as 255. *)
Example dtypeOf_eight_bit_fields :
  dtypeOf toUint8 toUint8 66080 = {| code := 2; bits := 32; lanes := 1 |}
  /\ dtypeOf toUint8 toUint8 (-1) = {| code := 255; bits := 255; lanes := 1 |}.
Proof. split; reflexivity. Qed.

(** X5. With a non-zero handle and a writable variable, an array no
    longer than the tensor overwrites its first elements and leaves the
    others and the length as they were; the setters make no check of
    the sizes. When the setter returns false the tensor is untouched. *)
Theorem setVarData_overwrites_prefix (varPtr : Z) (tensor jdata : list Z) :
  varPtr <> 0 -> (length jdata <= length tensor)%nat ->
  let float := nativeSetVarFloatData varPtr WritePtr tensor jdata in
  let int := nativeSetVarIntData varPtr WritePtr tensor jdata in
  (float.1 = Return true
   /\ take (length jdata) float.2 = jdata
   /\ drop (length jdata) float.2 = drop (length jdata) tensor
   /\ length float.2 = length tensor)
  /\ int = float
  /\ (forall p w t d, (nativeSetVarFloatData p w t d).1 = Return false ->
                      (nativeSetVarFloatData p w t d).2 = t)
  /\ (forall p w t d, (nativeSetVarIntData p w t d).1 = Return false ->
                      (nativeSetVarIntData p w t d).2 = t).
Proof.
  intros Hptr Hlen float int. unfold float, int.
  unfold nativeSetVarFloatData, nativeSetVarIntData.
  destruct (Z.eqb_spec varPtr 0) as [->|_]; [contradiction|].
  cbn [fst snd]. unfold memcpy, jfloat, jint.
  assert (length (jdata ++ drop (length jdata) tensor) = length tensor) as Hall
    by (rewrite length_app, length_drop; lia).
  rewrite (take_ge (jdata ++ drop (length jdata) tensor)) by lia.
  split; [|split; [reflexivity|]].
  - split; [reflexivity|]. split; [by rewrite take_app_length|].
    split; [by rewrite drop_app_length|exact Hall].
  - split; intros p w t d; destruct (p =? 0); try done; by destruct w.
Qed.

Lemma setVarData_overwrites_prefix_witness :
  let out := nativeSetVarFloatData 4096 WritePtr [0; 0; 7] [1065353216; 1073741824] in
  out.1 = Return true
  /\ take 2 out.2 = [1065353216; 1073741824]
  /\ drop 2 out.2 = [7].
Proof.
  destruct (setVarData_overwrites_prefix 4096 [0; 0; 7] [1065353216; 1073741824])
    as ((Hret & Htake & Hdrop & _) & _); [lia|cbn; lia|].
  split; [exact Hret|]. split; [exact Htake|exact Hdrop].
Defined.

End InputVarFacts.

(** ** Shape of the calls of a request *)

Section Shape.
Implicit Types (st : Relay) (rest engine : list action) (jni final : JniReply)
  (ctx : StreamContext) (tr evs : list event).

Lemma countEvents_app p tr evs :
  countEvents p (tr ++ evs) = (countEvents p tr + countEvents p evs)%nat.
Proof. unfold countEvents. by rewrite filter_app, length_app. Qed.

Lemma countEvents_cons p e evs :
  countEvents p (e :: evs) = ((if p e then 1 else 0) + countEvents p evs)%nat.
Proof.
  unfold countEvents. rewrite filter_cons.
  destruct (decide (p e = true)) as [->|Hno]; [reflexivity|].
  by destruct (p e).
Qed.

Lemma flushCount_countEvents evs : flushCount evs = countEvents isGetEnv evs.
Proof. reflexivity. Qed.

Lemma xsputn_llmPtr (g : gmap Z bool) jni s n ctx :
  llmPtr (xsputn g jni s n ctx).1.2 = llmPtr ctx.
Proof.
  unfold xsputn. destruct (_ || _).
  - cbn. by destruct (checkCancelFlag _ _).
  - destruct (shouldFlush _ _); [|reflexivity].
    unfold flushToCallback. cbn [buffer shouldStop].
    destruct (_ || _); [reflexivity|].
    destruct jni as [ge att jt ot].
    by destruct ge, att, jt, ot as [[|]| |].
Qed.

Lemma step_llmPtr st a : llmPtr (context (step st a)) = llmPtr (context st).
Proof.
  destruct a as [s n jni|h]; [|reflexivity]. cbn.
  pose proof (xsputn_llmPtr (gCancelFlags st) jni s n (context st)) as Hx.
  by destruct (xsputn _ _ _ _ _) as [[r ctx'] evs].
Qed.

Lemma response_llmPtr rest st : llmPtr (context (response rest st)) = llmPtr (context st).
Proof.
  revert st. induction rest as [|a rest IH]; intros st; [reflexivity|].
  by rewrite response_cons, IH, step_llmPtr.
Qed.

(** What holds of the calls of every flush and of every sequence of
    such calls holds of what one write and what a whole run add to the
    trace. *)
Lemma xsputn_events (P : list event -> Prop) (g : gmap Z bool) jni s n ctx :
  P [] -> (forall j c, P (flushToCallback j c).2) -> P (xsputn g jni s n ctx).2.
Proof.
  intros Hnil Hflush. unfold xsputn. destruct (_ || _); [exact Hnil|].
  destruct (shouldFlush _ _); [|exact Hnil].
  match goal with |- context [flushToCallback ?j ?c] =>
    specialize (Hflush j c); by destruct (flushToCallback j c) end.
Qed.

Lemma response_events (P : list event -> Prop) rest st :
  P [] -> (forall evs1 evs2, P evs1 -> P evs2 -> P (evs1 ++ evs2)) ->
  (forall j c, P (flushToCallback j c).2) ->
  exists evs, trace (response rest st) = trace st ++ evs /\ P evs.
Proof.
  intros Hnil Happ Hflush. revert st.
  induction rest as [|a rest IH]; intros st.
  - exists []. split; [cbn; by rewrite app_nil_r|exact Hnil].
  - rewrite response_cons. destruct (IH (step st a)) as (evs & -> & Hevs).
    destruct a as [s n jni|h]; cbn [step].
    + pose proof (xsputn_events P (gCancelFlags st) jni s n (context st) Hnil Hflush)
        as Hx.
      destruct (xsputn _ _ _ _ _) as [[r ctx'] evs']. cbn [trace snd] in *.
      exists (evs' ++ evs). split; [by rewrite app_assoc|by apply Happ].
    + cbn [trace]. by exists evs.
Qed.

Lemma finalFlush_events (P : list event -> Prop) final st :
  P [] -> (forall j c, P (flushToCallback j c).2) ->
  exists evs, trace (finalFlush final st) = trace st ++ evs /\ P evs.
Proof.
  intros Hnil Hflush. unfold finalFlush. destruct (_ && _).
  - specialize (Hflush final (context st)).
    destruct (flushToCallback _ _) as [ctx' evs]. by exists evs.
  - exists []. by rewrite app_nil_r.
Qed.

(** The calls of a request: none, or registration, the calls of its
    flushes, teardown. *)
Lemma nativeGenerateStream_calls (P : list event -> Prop) h setup engine exit final
    (g : gmap Z bool) :
  P [] -> (forall evs1 evs2, P evs1 -> P evs2 -> P (evs1 ++ evs2)) ->
  (forall j c, P (flushToCallback j c).2) ->
  let o := nativeGenerateStream h setup engine exit final g in
  calls o = []
  \/ exists evs,
      calls o = [NewGlobalRef; SetCancelFlag h false] ++ evs
                ++ [DeleteGlobalRef; ClearCancelFlag h]
      /\ P evs.
Proof.
  intros Hnil Happ Hflush o. unfold o, nativeGenerateStream.
  destruct (h =? 0); [by left|].
  destruct setup; try (by left). right.
  destruct (response_events P engine (beginStream h g) Hnil Happ Hflush)
    as (evs & Htr & Hevs).
  destruct exit; cbn [calls].
  - destruct (finalFlush_events P final (response engine (beginStream h g)) Hnil Hflush)
      as (evs' & -> & Hevs').
    rewrite Htr. exists (evs ++ evs'). split; [|by apply Happ].
    cbn. by rewrite <- !app_assoc.
  - rewrite Htr. by exists evs.
  - rewrite Htr. by exists evs.
Qed.

End Shape.

(** X6. In the calls of every request the thread is detached as often
    as it was attached, and the global reference is deleted as often as
    it was created, at most once: no exit of a registered request
    leaves the thread attached or the reference alive. *)
Theorem nativeGenerateStream_releases_what_it_acquires (h : Z) (setup : SetupResult)
    (engine : list action) (exit : EngineExit) (final : JniReply) (g : gmap Z bool) :
  let o := nativeGenerateStream h setup engine exit final g in
  countEvents isDetach (calls o) = countEvents isAttached (calls o)
  /\ countEvents isDeleteGlobalRef (calls o) = countEvents isNewGlobalRef (calls o)
  /\ (countEvents isNewGlobalRef (calls o) <= 1)%nat.
Proof.
  intros o.
  destruct (nativeGenerateStream_calls
              (fun evs => countEvents isDetach evs = countEvents isAttached evs
                          /\ countEvents isDeleteGlobalRef evs = 0%nat
                          /\ countEvents isNewGlobalRef evs = 0%nat)
              h setup engine exit final g) as [Hnone|(evs & Hcalls & Hd & Hdel & Hnew)].
  - done.
  - intros evs1 evs2 (? & ? & ?) (? & ? & ?). rewrite !countEvents_app. lia.
  - intros j c. unfold flushToCallback. destruct (_ || _); [done|].
    destruct j as [ge att jt ot].
    by destruct ge, att, jt, ot as [[|]| |].
  - fold o in Hnone. rewrite Hnone. cbn. lia.
  - fold o in Hcalls. rewrite Hcalls, !countEvents_app, Hd, Hdel, Hnew.
    rewrite !countEvents_cons. cbn. lia.
Qed.

Ltac count_events := vm_compute; lia.

(** X7. A request calls the consumer at most once for each flush it
    starts, and starts at most one flush for each write of the engine
    and one more when the engine has returned. *)
Theorem nativeGenerateStream_call_bounds (h : Z) (setup : SetupResult)
    (engine : list action) (exit : EngineExit) (final : JniReply) (g : gmap Z bool) :
  let o := nativeGenerateStream h setup engine exit final g in
  (length (delivered (calls o)) <= flushCount (calls o))%nat
  /\ (flushCount (calls o) <= writesOf engine + 1)%nat.
Proof.
  intros o.
  assert (forall j c, (length (delivered (flushToCallback j c).2)
                       <= flushCount (flushToCallback j c).2)%nat
                      /\ (flushCount (flushToCallback j c).2 <= 1)%nat) as Hflush.
  { intros j c. unfold flushToCallback. destruct (_ || _); [count_events|].
    destruct j as [ge att jt ot].
    destruct ge, att, jt, ot as [[|]| |]; count_events. }
  assert (forall rest st,
             (flushCount (trace (response rest st))
              <= flushCount (trace st) + writesOf rest)%nat) as Hrun.
  { induction rest as [|a rest IH]; intros st;
      [change (writesOf []) with 0%nat; cbn [response fold_left]; lia|].
    rewrite response_cons. etransitivity; [apply IH|].
    assert (writesOf (a :: rest)
            = ((if isSputn a then 1 else 0) + writesOf rest)%nat) as ->.
    { unfold writesOf. rewrite filter_cons. by destruct a. }
    destruct a as [s n jni|h']; [|cbn [step trace isSputn]; lia].
    cbn [step isSputn].
    pose proof (xsputn_events (fun evs => (flushCount evs <= 1)%nat)
                  (gCancelFlags st) jni s n (context st)) as Hx.
    destruct (xsputn _ _ _ _ _) as [[r ctx'] evs]. cbn [trace snd] in *.
    assert (flushCount evs <= 1)%nat
      by (apply Hx; [count_events|intros; apply Hflush]).
    rewrite flushCount_app. lia. }
  split.
  - destruct (nativeGenerateStream_calls
                (fun evs => (length (delivered evs) <= flushCount evs)%nat)
                h setup engine exit final g) as [Hnone|(evs & Hcalls & Hevs)].
    + count_events.
    + intros evs1 evs2 ? ?. rewrite delivered_app, length_app, flushCount_app. lia.
    + intros. apply Hflush.
    + fold o in Hnone. rewrite Hnone. count_events.
    + fold o in Hcalls. rewrite Hcalls.
      rewrite !delivered_app, !length_app, !flushCount_app.
      change (length (delivered [NewGlobalRef; SetCancelFlag h false])) with 0%nat.
      change (length (delivered [DeleteGlobalRef; ClearCancelFlag h])) with 0%nat.
      lia.
  - unfold o, nativeGenerateStream. destruct (h =? 0); [count_events|].
    destruct setup; try count_events.
    specialize (Hrun engine (beginStream h g)).
    change (flushCount (trace (beginStream h g))) with 0%nat in Hrun.
    destruct exit; cbn [calls]; rewrite flushCount_app;
      change (flushCount [DeleteGlobalRef; ClearCancelFlag h]) with 0%nat.
    + destruct (finalFlush_events (fun evs => (flushCount evs <= 1)%nat) final
                  (response engine (beginStream h g))) as (evs & -> & Hevs).
      * count_events.
      * intros. apply Hflush.
      * rewrite flushCount_app. lia.
    + lia.
    + lia.
Qed.

(** ** What closes the latch *)

Section Latch.
Implicit Types (st : Relay) (rest engine : list action) (jni final : JniReply)
  (ctx : StreamContext) (tr evs : list event).

Lemma flushToCallback_latch jni ctx :
  shouldStop (flushToCallback jni ctx).1
  = shouldStop ctx || existsb stopsGeneration (flushToCallback jni ctx).2.
Proof.
  unfold flushToCallback. destruct (shouldStop ctx) eqn:Hstop.
  - rewrite orb_true_r. cbn. exact Hstop.
  - rewrite orb_false_r. destruct (length (buffer ctx) =? 0)%nat; [cbn; exact Hstop|].
    destruct jni as [ge att jt ot].
    destruct ge, att, jt, ot as [[|]| |]; cbn; by rewrite ?Hstop.
Qed.

Lemma xsputn_latch (g : gmap Z bool) jni s n ctx :
  shouldStop (xsputn g jni s n ctx).1.2
  = shouldStop ctx || checkCancelFlag (llmPtr ctx) g
    || existsb stopsGeneration (xsputn g jni s n ctx).2.
Proof.
  unfold xsputn. destruct (shouldStop ctx) eqn:Hstop.
  { cbn. destruct (checkCancelFlag _ _); [reflexivity|exact Hstop]. }
  destruct (checkCancelFlag (llmPtr ctx) g) eqn:Hflag; [reflexivity|].
  destruct (n <=? 0); cbn [orb]; [cbn; exact Hstop|].
  destruct (shouldFlush _ _); [|reflexivity].
  match goal with |- context [flushToCallback ?j ?c] =>
    pose proof (flushToCallback_latch j c) as Hflush;
    destruct (flushToCallback j c) as [ctx2 evs] end.
  exact Hflush.
Qed.

Lemma existsb_forallb_negb {A} (p : A -> bool) (l : list A) :
  forallb (fun x => negb (p x)) l = true -> existsb p l = false.
Proof.
  induction l as [|x l IH]; [reflexivity|].
  cbn. intros [Hx Hl]%andb_true_iff. apply negb_true_iff in Hx.
  by rewrite Hx, IH.
Qed.

Lemma step_flags_sputn st s n jni :
  gCancelFlags (step st (Sputn s n jni)) = gCancelFlags st.
Proof. cbn. by destruct (xsputn _ _ _ _ _) as [[r ctx'] evs]. Qed.

Lemma requested_cons a rest :
  requested (a :: rest)
  = match a with Sputn _ n _ => [Z.max 0 n] | OtherThreadCancel _ => [] end
    ++ requested rest.
Proof. by destruct a. Qed.

Lemma response_open rest st :
  shouldStop (context st) = false ->
  checkCancelFlag (llmPtr (context st)) (gCancelFlags st) = false ->
  Forall (fun a => a <> OtherThreadCancel (llmPtr (context st))) rest ->
  forallb (fun e => negb (stopsGeneration e)) (trace (response rest st)) = true ->
  shouldStop (context (response rest st)) = false
  /\ accepted (response rest st) = accepted st ++ requested rest.
Proof.
  revert st. induction rest as [|a rest IH]; intros st Hstop Hflag Hcancel Hquiet.
  - cbn. by rewrite app_nil_r.
  - rewrite response_cons in *. apply Forall_cons in Hcancel as [Ha Hcancel].
    rewrite requested_cons.
    assert (shouldStop (context (step st a)) = false
            /\ checkCancelFlag (llmPtr (context st)) (gCancelFlags (step st a)) = false
            /\ accepted (step st a)
               = accepted st ++ match a with
                                | Sputn _ n _ => [Z.max 0 n]
                                | OtherThreadCancel _ => []
                                end) as (Hstop1 & Hflag1 & Hacc1).
    { destruct a as [s n jni|h'].
      - rewrite step_flags_sputn. split; [|split; [exact Hflag|]].
        + destruct (response_trace_prefix rest (step st (Sputn s n jni)))
            as [evs Hevs].
          rewrite Hevs, forallb_app in Hquiet.
          apply andb_true_iff in Hquiet as [Hquiet _].
          cbn [step] in *.
          pose proof (xsputn_latch (gCancelFlags st) jni s n (context st)) as Hx.
          destruct (xsputn _ _ _ _ _) as [[r ctx'] evs']. cbn [context trace fst snd] in *.
          rewrite forallb_app in Hquiet.
          apply andb_true_iff in Hquiet as [_ Hquiet].
          by rewrite Hx, Hstop, Hflag, (existsb_forallb_negb _ _ Hquiet).
        + cbn [step]. destruct (Z.leb_spec n 0) as [Hn|Hn].
          * rewrite xsputn_empty by assumption. cbn. f_equal. f_equal. lia.
          * rewrite xsputn_accepted by assumption. cbv zeta.
            destruct (shouldFlush _ _); cbn; f_equal; f_equal; lia.
      - cbn [step context gCancelFlags accepted].
        split; [exact Hstop|]. split; [|by rewrite app_nil_r].
        rewrite checkCancelFlag_nativeCancel_ne; [exact Hflag|congruence]. }
    destruct (IH (step st a)) as [Hopen Hacc];
      rewrite ?step_llmPtr; try assumption.
    split; [exact Hopen|]. by rewrite Hacc, Hacc1, <- app_assoc.
Qed.

End Latch.

(** X8. Only a cancel of its handle and the consumer close the latch
    of a request: one write sets it exactly when it was set, when the
    flag of the handle is polled as set, or when the consumer answers
    false or raises an exception in the flush of that write. Hence in a
    request during which no thread cancels its handle and the consumer
    never stops, the latch is open when the engine returns and every
    write was taken whole, even where JVM calls of flushes failed. *)
Theorem latch_closed_only_by_cancel_or_consumer (h : Z) (engine : list action)
    (exit : EngineExit) (final : JniReply) (g : gmap Z bool) :
  h <> 0 ->
  let o := nativeGenerateStream h SetupOk engine exit final g in
  (forall g' jni s n ctx,
      shouldStop (xsputn g' jni s n ctx).1.2
      = shouldStop ctx || checkCancelFlag (llmPtr ctx) g'
        || existsb stopsGeneration (xsputn g' jni s n ctx).2)
  /\ (Forall (fun a => a <> OtherThreadCancel h) engine ->
      Forall (fun e => stopsGeneration e = false) (calls o) ->
      latch o = false /\ returned o = requested engine).
Proof.
  intros Hh o. split; [intros; apply xsputn_latch|].
  intros Hcancel Hquiet. unfold o in *. unfold nativeGenerateStream in *.
  destruct (Z.eqb_spec h 0) as [->|_]; [contradiction|].
  assert (forallb (fun e => negb (stopsGeneration e))
            (trace (response engine (beginStream h g))) = true) as Hrun.
  { assert (forallb (fun e => negb (stopsGeneration e))
              (calls (nativeGenerateStream h SetupOk engine exit final g)) = true)
      as Hall.
    { unfold nativeGenerateStream.
      destruct (Z.eqb_spec h 0) as [->|_]; [contradiction|].
      clear -Hquiet. induction Hquiet as [|e evs He _ IH]; [reflexivity|].
      cbn. by rewrite He, IH. }
    unfold nativeGenerateStream in Hall.
    destruct (Z.eqb_spec h 0) as [->|_]; [contradiction|].
    destruct exit; cbn [calls] in Hall; rewrite forallb_app in Hall;
      apply andb_true_iff in Hall as [Hall _]; [|exact Hall|exact Hall].
    revert Hall. unfold finalFlush. destruct (_ && _); [|done].
    destruct (flushToCallback _ _) as [ctx' evs]. cbn [trace].
    rewrite forallb_app. by intros [? _]%andb_true_iff. }
  destruct (response_open engine (beginStream h g)) as [Hopen Hacc];
    [reflexivity|apply checkCancelFlag_set|exact Hcancel|exact Hrun|].
  destruct exit; cbn [latch returned]; rewrite ?finalFlush_accepted; by split.
Qed.

Lemma latch_closed_only_by_cancel_or_consumer_witness :
  let detached := {| getEnvResult := JNI_EDETACHED; attachOk := false;
                     jtokenNonNull := true; onToken := Returned true |} in
  let engine := [Sputn (bytes "Hi.") 3 detached; OtherThreadCancel 9;
                 Sputn (bytes " there") 6 detached] in
  let o := nativeGenerateStream 7 SetupOk engine Returns detached ∅ in
  latch o = false /\ returned o = [3; 6].
Proof.
  intros detached engine o.
  destruct (latch_closed_only_by_cancel_or_consumer 7 engine Returns detached ∅)
    as [_ Hopen]; [lia|].
  apply Hopen.
  - repeat constructor; discriminate.
  - repeat constructor.
Defined.

(** ** A request and the other handles *)

Section Handles.
Implicit Types (st : Relay) (rest engine : list action) (jni final : JniReply)
  (ctx : StreamContext) (h : Z) (g : gmap Z bool).

Lemma nativeCancel_lookup_ne h h' g : h' <> h -> nativeCancel h' g !! h = g !! h.
Proof.
  intros Hne. unfold nativeCancel, setCancelFlag.
  destruct (h' =? 0); [reflexivity|]. by rewrite lookup_insert_ne.
Qed.

Lemma response_flags_other rest st h :
  Forall (fun a => a <> OtherThreadCancel h) rest ->
  gCancelFlags (response rest st) !! h = gCancelFlags st !! h.
Proof.
  revert st. induction rest as [|a rest IH]; intros st Hrest; [reflexivity|].
  apply Forall_cons in Hrest as [Ha Hrest].
  rewrite response_cons, IH by assumption.
  destruct a as [s n jni|h']; [by rewrite step_flags_sputn|].
  cbn. apply nativeCancel_lookup_ne. congruence.
Qed.

Lemma xsputn_same_poll g g' jni s n ctx :
  g !! llmPtr ctx = g' !! llmPtr ctx -> xsputn g jni s n ctx = xsputn g' jni s n ctx.
Proof. intros Hsame. unfold xsputn, checkCancelFlag. by rewrite Hsame. Qed.

Lemma step_sameRun st st' a : sameRun st st' -> sameRun (step st a) (step st' a).
Proof.
  intros (Hctx & Htr & Hacc & Hflag). unfold sameRun. rewrite step_llmPtr.
  destruct a as [s n jni|h]; cbn [step].
  - rewrite <- Hctx, <- Htr, <- Hacc.
    rewrite (xsputn_same_poll _ _ jni s n (context st) Hflag).
    by destruct (xsputn _ _ _ _ _) as [[r ctx'] evs].
  - cbn. repeat split; try assumption.
    unfold nativeCancel, setCancelFlag. destruct (h =? 0); [exact Hflag|].
    rewrite !lookup_insert. by case_decide.
Qed.

Lemma step_sameRun_skip st st' a :
  forThisHandle (llmPtr (context st)) a = false ->
  sameRun st st' -> sameRun (step st a) st'.
Proof.
  intros Hskip (Hctx & Htr & Hacc & Hflag).
  destruct a as [s n jni|h]; [discriminate Hskip|].
  cbn in Hskip. apply Z.eqb_neq in Hskip.
  unfold sameRun. cbn. repeat split; try assumption.
  by rewrite nativeCancel_lookup_ne.
Qed.

Lemma response_sameRun rest st st' :
  sameRun st st' ->
  sameRun (response rest st)
    (response (filter (fun a => forThisHandle (llmPtr (context st)) a = true) rest) st').
Proof.
  revert st st'. induction rest as [|a rest IH]; intros st st' Hsame; [exact Hsame|].
  rewrite response_cons, filter_cons.
  destruct (decide (forThisHandle (llmPtr (context st)) a = true)) as [Hkeep|Hskip].
  - rewrite response_cons. rewrite <- (step_llmPtr st a).
    by apply IH, step_sameRun.
  - rewrite <- (step_llmPtr st a). apply IH, step_sameRun_skip; [|exact Hsame].
    by destruct (forThisHandle _ _).
Qed.

Lemma finalFlush_sameRun final st st' :
  sameRun st st' ->
  trace (finalFlush final st) = trace (finalFlush final st')
  /\ accepted (finalFlush final st) = accepted (finalFlush final st').
Proof.
  intros (Hctx & Htr & Hacc & _). unfold finalFlush.
  rewrite <- Hctx, <- Htr, <- Hacc. destruct (_ && _); [|done].
  by destruct (flushToCallback _ _).
Qed.

End Handles.

(** X9. A request changes no entry of the table but that of its own
    handle: for every other handle that no thread cancels while the
    request runs, the entry at return is the entry at the call, on
    every exit. *)
Theorem nativeGenerateStream_keeps_other_flags (h h' : Z) (setup : SetupResult)
    (engine : list action) (exit : EngineExit) (final : JniReply) (g : gmap Z bool) :
  h' <> h ->
  Forall (fun a => a <> OtherThreadCancel h') engine ->
  flagsAfter (nativeGenerateStream h setup engine exit final g) !! h' = g !! h'.
Proof.
  intros Hne Hrest. unfold nativeGenerateStream.
  destruct (h =? 0); [reflexivity|].
  destruct setup; try reflexivity.
  destruct exit; cbn [flagsAfter]; unfold clearCancelFlag;
    rewrite lookup_delete_ne, ?finalFlush_flags, response_flags_other by done;
    cbn; unfold setCancelFlag; by rewrite lookup_insert_ne.
Qed.

Lemma nativeGenerateStream_keeps_other_flags_witness :
  flagsAfter (nativeGenerateStream 7 SetupOk
                [Sputn (bytes "Hi.") 3 (jniOk (Returned true)); OtherThreadCancel 7]
                ThrowsOther (jniOk (Returned true)) (nativeCancel 9 ∅)) !! 9
  = Some true.
Proof.
  rewrite (nativeGenerateStream_keeps_other_flags 7 9); [reflexivity|lia|].
  repeat constructor; discriminate.
Defined.

(** X10. What a request does depends neither on the table it starts
    from nor on the cancels of other handles: with these cancels
    removed from the run, and from any other table, its result, its
    calls, the values its writes return and its latch are the same. *)
Theorem nativeGenerateStream_isolated (h : Z) (setup : SetupResult)
    (engine : list action) (exit : EngineExit) (final : JniReply)
    (g g' : gmap Z bool) :
  let o := nativeGenerateStream h setup engine exit final g in
  let o' := nativeGenerateStream h setup
              (filter (fun a => forThisHandle h a = true) engine) exit final g' in
  result o = result o' /\ calls o = calls o'
  /\ returned o = returned o' /\ latch o = latch o'.
Proof.
  intros o o'. unfold o, o', nativeGenerateStream.
  destruct (h =? 0); [done|].
  destruct setup; try done.
  assert (sameRun (beginStream h g) (beginStream h g')) as Hbegin.
  { unfold sameRun, beginStream, setCancelFlag. cbn.
    by rewrite !lookup_insert_eq. }
  pose proof (response_sameRun engine _ _ Hbegin) as Hrun.
  change (llmPtr (context (beginStream h g))) with h in Hrun.
  pose proof (finalFlush_sameRun final _ _ Hrun) as [Htr Hacc].
  destruct Hrun as (Hctx & Htr1 & Hacc1 & _).
  destruct exit; cbn [result calls returned latch];
    by rewrite ?Htr, ?Hacc, ?Htr1, ?Hacc1, ?Hctx.
Qed.

(** ** A cancel during generation *)

Section MidCancel.
Implicit Types (st : Relay) (rest engine : list action) (final : JniReply).

Lemma writesOf_cons a rest :
  writesOf (a :: rest) = ((if isSputn a then 1 else 0) + writesOf rest)%nat.
Proof. unfold writesOf. rewrite filter_cons. by destruct a. Qed.

Lemma response_flagged rest st :
  checkCancelFlag (llmPtr (context st)) (gCancelFlags st) = true ->
  trace (response rest st) = trace st
  /\ buffer (context (response rest st)) = buffer (context st)
  /\ accepted (response rest st) = accepted st ++ replicate (writesOf rest) 0
  /\ ((0 < writesOf rest)%nat -> shouldStop (context (response rest st)) = true).
Proof.
  revert st. induction rest as [|a rest IH]; intros st Hflag.
  - cbn. rewrite app_nil_r. repeat split. unfold writesOf. cbn. lia.
  - rewrite response_cons, writesOf_cons. destruct a as [s n jni|h].
    + set (st1 := step st (Sputn s n jni)).
      assert (trace st1 = trace st /\ buffer (context st1) = buffer (context st)
              /\ accepted st1 = accepted st ++ [0]
              /\ shouldStop (context st1) = true) as (Htr & Hbuf & Hacc & Hstop).
      { unfold st1. cbn. rewrite xsputn_cancelled by assumption. cbn.
        by rewrite app_nil_r. }
      destruct (response_latched rest st1 Hstop) as (Hctx' & Htr' & Hacc').
      rewrite Hctx', Htr', Hacc', Htr, Hbuf, Hacc, Hstop, <- app_assoc.
      done.
    + destruct (IH (step st (OtherThreadCancel h))) as (Htr & Hbuf & Hacc & Hstop).
      { cbn. by apply checkCancelFlag_nativeCancel_true. }
      done.
Qed.

End MidCancel.

(** X11. After a cancel of the request's handle by another thread,
    every write returns zero, nothing is added to the buffer and no JVM
    call is made; when at least one write follows the cancel the latch
    is set and the flush at the end is skipped, so the bytes held in
    the buffer at the cancel are never delivered. A cancel that no
    write follows is never polled: the flush at the end runs as without
    it. *)
Theorem cancel_during_generation (st : Relay) (rest : list action) (final : JniReply) :
  llmPtr (context st) <> 0 ->
  let cancel := OtherThreadCancel (llmPtr (context st)) in
  let st' := response (cancel :: rest) st in
  trace st' = trace st
  /\ buffer (context st') = buffer (context st)
  /\ accepted st' = accepted st ++ replicate (writesOf rest) 0
  /\ ((0 < writesOf rest)%nat -> finalFlush final st' = st')
  /\ trace (finalFlush final (step st cancel)) = trace (finalFlush final st).
Proof.
  intros Hh cancel st'. unfold st', cancel. rewrite response_cons.
  destruct (response_flagged rest (step st (OtherThreadCancel (llmPtr (context st)))))
    as (Htr & Hbuf & Hacc & Hstop).
  { cbn. rewrite nativeCancel_nonzero by assumption. apply checkCancelFlag_set. }
  split; [exact Htr|]. split; [exact Hbuf|]. split; [exact Hacc|].
  split.
  - intros Hwrites. apply finalFlush_latched. by apply Hstop.
  - unfold finalFlush. cbn [step context trace].
    destruct (_ && _); [|reflexivity]. by destruct (flushToCallback _ _).
Qed.

Lemma cancel_during_generation_witness :
  let go := jniOk (Returned true) in
  let st := response [Sputn (bytes "Hel") 3 go] (beginStream 7 ∅) in
  let st' := response [OtherThreadCancel 7; Sputn (bytes "lo.") 3 go] st in
  trace st' = [NewGlobalRef; SetCancelFlag 7 false]
  /\ buffer (context st') = bytes "Hel"
  /\ accepted st' = [3; 0]
  /\ finalFlush go st' = st'.
Proof.
  intros go st st'.
  destruct (cancel_during_generation st [Sputn (bytes "lo.") 3 go] go)
    as (Htr & Hbuf & Hacc & Hfinal & _); [vm_compute; lia|].
  split; [exact Htr|]. split; [exact Hbuf|]. split; [exact Hacc|].
  apply Hfinal. vm_compute. lia.
Defined.

(** ** The buffer between two writes *)

Section Buffer.
Implicit Types (st : Relay) (rest engine : list action) (jni final : JniReply)
  (ctx : StreamContext) (tr evs : list event).

(** A flush that obtains a [JNIEnv] leaves no byte in the buffer of a
    context that is not latched. *)
Lemma flushToCallback_empties jni ctx :
  envObtained jni -> shouldStop ctx = false ->
  buffer (flushToCallback jni ctx).1 = [].
Proof.
  intros Henv Hstop. unfold flushToCallback. rewrite Hstop, orb_false_r.
  destruct (buffer ctx) as [|b0 buf] eqn:Ebuf; [cbn; exact Ebuf|].
  cbn [length Nat.eqb].
  destruct jni as [ge att jt ot]. unfold envObtained in Henv. cbn in Henv.
  destruct ge, att, jt, ot as [[|]| |]; cbn; try reflexivity;
    destruct Henv as [?|[? ?]]; discriminate.
Qed.

Lemma step_buffer_bound st a :
  envAvailable a ->
  (length (buffer (context st)) < 16)%nat ->
  (length (buffer (context (step st a))) < 16)%nat.
Proof.
  intros Henv Hlen. destruct a as [s n jni|h]; [|exact Hlen].
  cbn [step envAvailable] in *. unfold xsputn.
  destruct (shouldStop (context st)) eqn:Hstop.
  { cbn. by destruct (checkCancelFlag _ _). }
  destruct (checkCancelFlag _ _); [exact Hlen|].
  destruct (n <=? 0); cbn [orb]; [exact Hlen|].
  destruct (shouldFlush _ _) eqn:Hflush.
  - match goal with |- context [flushToCallback ?j ?c] =>
      pose proof (flushToCallback_empties j c Henv eq_refl) as Hempty;
      destruct (flushToCallback j c) as [ctx2 evs] end.
    cbn in *. rewrite Hempty. cbn. lia.
  - cbn. rewrite shouldFlush_rules in Hflush.
    apply orb_false_iff in Hflush as [Hflush _].
    apply orb_false_iff in Hflush as [Hflush _].
    by apply Nat.leb_gt in Hflush.
Qed.

End Buffer.

(** X12. While every flush can obtain a [JNIEnv], the buffer holds
    fewer than 16 bytes after every write of a request, whatever the
    engine writes, the consumer answers and other threads cancel. *)
Theorem buffer_below_threshold (h : Z) (g : gmap Z bool) (engine : list action) :
  Forall envAvailable engine ->
  (length (buffer (context (response engine (beginStream h g)))) < 16)%nat.
Proof.
  intros Henv.
  assert (forall rest st, Forall envAvailable rest ->
            (length (buffer (context st)) < 16)%nat ->
            (length (buffer (context (response rest st))) < 16)%nat) as Hrun.
  { induction rest as [|a rest IH]; intros st Hrest Hlen; [exact Hlen|].
    apply Forall_cons in Hrest as [Ha Hrest].
    rewrite response_cons. apply IH; [exact Hrest|].
    by apply step_buffer_bound. }
  apply Hrun; [exact Henv|]. cbn. lia.
Qed.

Lemma buffer_below_threshold_witness :
  let go := jniOk (Returned true) in
  (length (buffer (context (response
     [Sputn (bytes "abcdefghijklmn") 14 go; Sputn (bytes "opq") 3 go;
      Sputn (bytes "rs") 2 go] (beginStream 7 ∅)))) < 16)%nat.
Proof.
  intros go. apply buffer_below_threshold.
  repeat constructor.
Defined.

(** Without a [JNIEnv] the buffer is kept and grows past the
    threshold. *)
Example buffer_grows_without_env :
  let failing := {| getEnvResult := JNI_OtherError; attachOk := false;
                    jtokenNonNull := true; onToken := Returned true |} in
  buffer (context (response
    [Sputn (bytes "abcdefghijklmnop") 16 failing; Sputn (bytes "qr") 2 failing]
    (beginStream 7 ∅)))
  = bytes "abcdefghijklmnopqr".
Proof. reflexivity. Qed.

(** X13. A flush that obtained a [JNIEnv] has nothing left to hand
    over: a second flush right after it makes no JVM call and changes
    nothing, whatever the first one met in [NewStringUTF] and in the
    consumer. *)
Theorem flushToCallback_twice (first second : JniReply) (ctx : StreamContext) :
  envObtained first ->
  flushToCallback second (flushToCallback first ctx).1
  = ((flushToCallback first ctx).1, []).
Proof.
  intros Henv. destruct (shouldStop ctx) eqn:Hstop.
  - assert (flushToCallback first ctx = (ctx, [])) as ->
      by (unfold flushToCallback; by rewrite Hstop, orb_true_r).
    cbn [fst]. unfold flushToCallback. by rewrite Hstop, orb_true_r.
  - pose proof (flushToCallback_empties first ctx Henv Hstop) as Hempty.
    unfold flushToCallback at 1. by rewrite Hempty.
Qed.

Lemma flushToCallback_twice_witness :
  let ctx := {| buffer := bytes "Hi."; shouldStop := false; llmPtr := 7 |} in
  let nojstring := {| getEnvResult := JNI_EDETACHED; attachOk := true;
                      jtokenNonNull := false; onToken := Returned true |} in
  (flushToCallback (jniOk (Returned true)) (flushToCallback nojstring ctx).1).2 = [].
Proof.
  intros ctx nojstring.
  rewrite (flushToCallback_twice nojstring (jniOk (Returned true)) ctx);
    [reflexivity|].
  right. split; reflexivity.
Defined.

(** ** Conservation of the text when flushes fail or the request stops *)

Section Retained.
Implicit Types (st : Relay) (rest engine : list action) (jni final : JniReply)
  (ctx : StreamContext) (tr evs : list event).

(** A flush in which [NewStringUTF] does not fail hands over the buffer
    or keeps it. *)
Lemma flushToCallback_retains jni ctx :
  forallb (fun e => negb (isJstringFailure e)) (flushToCallback jni ctx).2 = true ->
  Forall (fun b => isNul b = false) (buffer ctx) ->
  concat (delivered (flushToCallback jni ctx).2) ++ buffer (flushToCallback jni ctx).1
  = buffer ctx.
Proof.
  intros Hok Hnul. apply c_str_no_nul in Hnul. revert Hok.
  unfold flushToCallback.
  destruct (_ || _); [by cbn|].
  destruct jni as [ge att jt ot].
  destruct ge, att, jt, ot as [[|]| |]; cbn [getEnvResult attachOk deliver
    jtokenNonNull onToken fst snd forallb isJstringFailure negb andb app];
    try discriminate; intros _; rewrite ?Hnul; cbn; by rewrite ?app_nil_r.
Qed.

Lemma xsputn_retains (g : gmap Z bool) jni s n ctx :
  shouldStop (xsputn g jni s n ctx).1.2 = false ->
  forallb (fun e => negb (isJstringFailure e)) (xsputn g jni s n ctx).2 = true ->
  Forall (fun b => isNul b = false) (buffer ctx ++ take (Z.to_nat n) s) ->
  concat (delivered (xsputn g jni s n ctx).2) ++ buffer (xsputn g jni s n ctx).1.2
  = buffer ctx ++ take (Z.to_nat n) s.
Proof.
  unfold xsputn.
  destruct (shouldStop ctx) eqn:Hstop.
  { cbn. destruct (checkCancelFlag _ _); cbn; congruence. }
  destruct (checkCancelFlag (llmPtr ctx) g) eqn:Hflag; [cbn; discriminate|].
  destruct (Z.leb_spec n 0) as [Hn|Hn]; cbn [orb].
  { intros _ _ _. replace (Z.to_nat n) with 0%nat by lia.
    cbn. by rewrite app_nil_r. }
  destruct (shouldFlush _ _); [|by cbn].
  match goal with |- context [flushToCallback ?j ?c] =>
    pose proof (flushToCallback_retains j c) as Hflush;
    destruct (flushToCallback j c) as [ctx2 evs] end.
  cbn [fst snd buffer] in *. intros _ Hok Hnul. by apply Hflush.
Qed.

Lemma step_retains st a :
  shouldStop (context (step st a)) = false ->
  forallb (fun e => negb (isJstringFailure e)) (trace (step st a)) = true ->
  Forall (fun b => isNul b = false) (buffer (context st) ++ actionBytes a) ->
  concat (delivered (trace (step st a))) ++ buffer (context (step st a))
  = concat (delivered (trace st)) ++ buffer (context st) ++ actionBytes a
  /\ Forall (fun b => isNul b = false) (buffer (context (step st a))).
Proof.
  destruct a as [s n jni|h].
  2:{ cbn. intros _ _ Hnul. by rewrite app_nil_r in *. }
  cbn [step actionBytes].
  pose proof (xsputn_retains (gCancelFlags st) jni s n (context st)) as Hx.
  destruct (xsputn _ _ _ _ _) as [[r ctx'] evs]. cbn [fst snd context trace] in *.
  intros Hstop Hok Hnul.
  rewrite forallb_app in Hok. apply andb_true_iff in Hok as [_ Hok].
  specialize (Hx Hstop Hok Hnul). split.
  - by rewrite delivered_app, concat_app, <- app_assoc, Hx.
  - rewrite <- Hx in Hnul. by apply Forall_app in Hnul as [_ ?].
Qed.

Lemma response_retains rest st :
  shouldStop (context (response rest st)) = false ->
  forallb (fun e => negb (isJstringFailure e)) (trace (response rest st)) = true ->
  Forall (fun b => isNul b = false) (buffer (context st) ++ engineText rest) ->
  concat (delivered (trace (response rest st))) ++ buffer (context (response rest st))
  = concat (delivered (trace st)) ++ buffer (context st) ++ engineText rest.
Proof.
  revert st. induction rest as [|a rest IH]; intros st Hstop Hok Hnul.
  - cbn in *. by rewrite app_nil_r in *.
  - rewrite response_cons in *.
    change (engineText (a :: rest)) with (actionBytes a ++ engineText rest) in *.
    assert (shouldStop (context (step st a)) = false) as Hstop1.
    { destruct (shouldStop (context (step st a))) eqn:E; [|reflexivity].
      by rewrite (response_latch_monotone rest _ E) in Hstop. }
    assert (forallb (fun e => negb (isJstringFailure e)) (trace (step st a)) = true)
      as Hok1.
    { destruct (response_trace_prefix rest (step st a)) as [evs Hevs].
      rewrite Hevs, forallb_app in Hok. by apply andb_true_iff in Hok as [? _]. }
    rewrite app_assoc in Hnul. apply Forall_app in Hnul as [Hnul1 Hnul2].
    destruct (step_retains st a Hstop1 Hok1 Hnul1) as [Hstep Hnul'].
    rewrite (IH (step st a) Hstop Hok); [|apply Forall_app; by split].
    by rewrite app_assoc, Hstep, <- !app_assoc.
Qed.

End Retained.

(** X14. While the latch is open, no byte of a text without NUL is
    lost unless [NewStringUTF] fails: the chunks handed to the consumer
    so far, followed by the bytes still in the buffer, are the text
    written so far. A flush that could not get a [JNIEnv] or attach the
    thread drops nothing; its bytes go out with a later flush. *)
Theorem response_retains_text (h : Z) (g : gmap Z bool) (engine : list action) :
  let st := response engine (beginStream h g) in
  shouldStop (context st) = false ->
  Forall (fun e => isJstringFailure e = false) (trace st) ->
  Forall (fun b => isNul b = false) (engineText engine) ->
  concat (delivered (trace st)) ++ buffer (context st) = engineText engine.
Proof.
  intros st Hstop Hok Hnul. unfold st in *.
  rewrite response_retains; [reflexivity|exact Hstop| |exact Hnul].
  clear -Hok. induction Hok as [|e evs He _ IH]; [reflexivity|].
  cbn. by rewrite He, IH.
Qed.

Lemma response_retains_text_witness :
  let detached := {| getEnvResult := JNI_EDETACHED; attachOk := false;
                     jtokenNonNull := true; onToken := Returned true |} in
  let st := response [Sputn (bytes "Hello. ") 7 detached;
                      Sputn (bytes "there.") 6 (jniOk (Returned true));
                      Sputn (bytes " And") 4 detached] (beginStream 7 ∅) in
  delivered (trace st) = [bytes "Hello. there."]
  /\ buffer (context st) = bytes " And"
  /\ concat (delivered (trace st)) ++ buffer (context st)
     = bytes "Hello. there. And".
Proof.
  intros detached st. split; [reflexivity|]. split; [reflexivity|].
  apply (response_retains_text 7 ∅).
  - reflexivity.
  - repeat constructor.
  - repeat constructor.
Defined.

(** ** Exceptions of the consumer *)

Section Halt.
Implicit Types (st : Relay) (rest : list action) (jni final : JniReply)
  (ctx : StreamContext) (tr evs : list event).

(** The calls of one flush, read against the latch it leaves. *)
Lemma flushToCallback_halt jni ctx :
  shouldStop ctx = false ->
  if shouldStop (flushToCallback jni ctx).1
  then quietAfterHalt (flushToCallback jni ctx).2 = true
  else forallb (fun e => negb (stopsGeneration e)) (flushToCallback jni ctx).2 = true.
Proof.
  intros Hstop. unfold flushToCallback. rewrite Hstop, orb_false_r.
  destruct (length (buffer ctx) =? 0)%nat; [cbn; by rewrite Hstop|].
  destruct jni as [ge att jt ot].
  destruct ge, att, jt, ot as [[|]| |]; cbn; rewrite Hstop; reflexivity.
Qed.

Lemma xsputn_halt g jni s n ctx :
  shouldStop ctx = false ->
  if shouldStop (xsputn g jni s n ctx).1.2
  then quietAfterHalt (xsputn g jni s n ctx).2 = true
  else forallb (fun e => negb (stopsGeneration e)) (xsputn g jni s n ctx).2 = true.
Proof.
  intros Hstop. unfold xsputn. rewrite Hstop. cbn [orb].
  destruct (checkCancelFlag (llmPtr ctx) g) eqn:Hflag; [reflexivity|].
  destruct (n <=? 0); cbn [orb]; [cbn; by rewrite Hstop|].
  destruct (shouldFlush _ _); [|reflexivity].
  match goal with |- context [flushToCallback ?j ?c] =>
    pose proof (flushToCallback_halt j c eq_refl) as Hflush;
    destruct (flushToCallback j c) as [ctx2 evs] end.
  exact Hflush.
Qed.

Lemma quietAfterHalt_none tr :
  forallb (fun e => negb (stopsGeneration e)) tr = true -> quietAfterHalt tr = true.
Proof.
  induction tr as [|e tr IH]; [reflexivity|].
  cbn. intros [He Htr]%andb_true_iff.
  apply negb_true_iff in He. rewrite He. by apply IH.
Qed.

Lemma quietAfterHalt_app_l tr evs :
  forallb (fun e => negb (stopsGeneration e)) tr = true ->
  quietAfterHalt (tr ++ evs) = quietAfterHalt evs.
Proof.
  induction tr as [|e tr IH]; [reflexivity|].
  cbn. intros [He Htr]%andb_true_iff.
  apply negb_true_iff in He. rewrite He. by apply IH.
Qed.

Lemma quietAfterHalt_app_r tr evs :
  quietAfterHalt tr = true ->
  forallb (fun e => negb (isFlushCall e)) evs = true ->
  quietAfterHalt (tr ++ evs) = true.
Proof.
  intros Htr Hevs. induction tr as [|e tr IH].
  - cbn. apply quietAfterHalt_none.
    induction evs as [|e evs IH]; [reflexivity|].
    cbn in *. apply andb_true_iff in Hevs as [He Hevs].
    rewrite IH by assumption. by destruct e as [| | |? [[|]| |]| | | | |].
  - cbn in *. destruct (stopsGeneration e); [|by apply IH].
    by rewrite forallb_app, Htr, Hevs.
Qed.

(** What [quietAfterHalt] says of a trace cut at a stopping call. *)
Lemma quietAfterHalt_split tr pre chunk r post :
  quietAfterHalt tr = true ->
  r <> Returned true ->
  tr = pre ++ CallOnToken chunk r :: post ->
  Forall (fun e => isFlushCall e = false) post.
Proof.
  intros Hquiet Hr ->.
  assert (stopsGeneration (CallOnToken chunk r) = true) as Hstops
    by (by destruct r as [[|]| |]).
  induction pre as [|e pre IH].
  - cbn [app quietAfterHalt] in Hquiet. rewrite Hstops in Hquiet.
    apply Forall_forall. intros e Hin.
    rewrite forallb_forall in Hquiet. apply negb_true_iff, Hquiet.
    by apply list_elem_of_In.
  - cbn [app quietAfterHalt] in Hquiet.
    destruct (stopsGeneration e) eqn:He; [|by apply IH].
    rewrite forallb_app in Hquiet. apply andb_true_iff in Hquiet as [_ Hquiet].
    cbn in Hquiet. discriminate Hquiet.
Qed.

Lemma haltInvariant_quiet st : haltInvariant st -> quietAfterHalt (trace st) = true.
Proof.
  unfold haltInvariant. destruct (shouldStop _); [done|].
  apply quietAfterHalt_none.
Qed.

Lemma step_haltInvariant st a : haltInvariant st -> haltInvariant (step st a).
Proof.
  intros Hinv. destruct (shouldStop (context st)) eqn:Hstop.
  - destruct (step_latched st a Hstop) as (Hctx & Htr & _).
    unfold haltInvariant in *. by rewrite Hctx, Htr.
  - unfold haltInvariant in Hinv. rewrite Hstop in Hinv.
    destruct a as [s n jni|h]; [|unfold haltInvariant; cbn; by rewrite Hstop].
    pose proof (xsputn_halt (gCancelFlags st) jni s n (context st) Hstop) as Hx.
    unfold haltInvariant. cbn.
    destruct (xsputn _ _ _ _ _) as [[r ctx'] evs]. cbn in *.
    destruct (shouldStop ctx').
    + by rewrite quietAfterHalt_app_l.
    + by rewrite forallb_app, Hinv, Hx.
Qed.

Lemma response_haltInvariant rest st :
  haltInvariant st -> haltInvariant (response rest st).
Proof.
  revert st. induction rest as [|a rest IH]; intros st Hinv; [exact Hinv|].
  rewrite response_cons. by apply IH, step_haltInvariant.
Qed.

Lemma finalFlush_halt final st :
  haltInvariant st -> quietAfterHalt (trace (finalFlush final st)) = true.
Proof.
  intros Hinv. unfold finalFlush.
  destruct (shouldStop (context st)) eqn:Hstop.
  - rewrite andb_false_r. by apply haltInvariant_quiet.
  - destruct (negb _); cbn [andb negb]; [|by apply haltInvariant_quiet].
    unfold haltInvariant in Hinv. rewrite Hstop in Hinv.
    pose proof (flushToCallback_halt final (context st) Hstop) as Hflush.
    destruct (flushToCallback _ _) as [ctx' evs]. cbn in *.
    rewrite quietAfterHalt_app_l by assumption.
    destruct (shouldStop ctx'); [done|by apply quietAfterHalt_none].
Qed.

Lemma nativeGenerateStream_halt h setup engine exit final (g : gmap Z bool) :
  quietAfterHalt (calls (nativeGenerateStream h setup engine exit final g)) = true.
Proof.
  unfold nativeGenerateStream.
  destruct (h =? 0); [reflexivity|].
  destruct setup; try reflexivity.
  assert (haltInvariant (response engine (beginStream h g))) as Hinv
    by (by apply response_haltInvariant).
  destruct exit; cbn [calls]; apply quietAfterHalt_app_r; try reflexivity.
  - by apply finalFlush_halt.
  - by apply haltInvariant_quiet.
  - by apply haltInvariant_quiet.
Qed.

End Halt.

(** X15. The consumer is called again only after it answered true: in
    the calls of every request, a call of the consumer that answered
    false, left a Java exception pending or raised a C++ exception is
    followed by no call of a flush, so it is the last chunk the
    consumer receives. *)
Theorem consumer_called_again_only_after_true (h : Z) (setup : SetupResult)
    (engine : list action) (exit : EngineExit) (final : JniReply) (g : gmap Z bool)
    (pre post : list event) (chunk : list byte) (r : CallResult) :
  calls (nativeGenerateStream h setup engine exit final g)
  = pre ++ CallOnToken chunk r :: post ->
  r <> Returned true ->
  Forall (fun e => isFlushCall e = false) post /\ delivered post = [].
Proof.
  intros Hcalls Hr.
  assert (Forall (fun e => isFlushCall e = false) post) as Hquiet.
  { eapply quietAfterHalt_split; [|exact Hr|exact Hcalls].
    apply nativeGenerateStream_halt. }
  split; [exact Hquiet|by apply delivered_no_flush_call].
Qed.

Lemma consumer_called_again_only_after_true_witness :
  let throwing := jniOk JavaException in
  let go := jniOk (Returned true) in
  let engine := [Sputn (bytes "Hello. ") 7 throwing; Sputn (bytes "there.") 6 go] in
  calls (nativeGenerateStream 7 SetupOk engine Returns go ∅)
  = [NewGlobalRef; SetCancelFlag 7 false; GetEnv JNI_OK;
     NewStringUTF (bytes "Hello. ") true]
    ++ CallOnToken (bytes "Hello. ") JavaException
    :: [DeleteGlobalRef; ClearCancelFlag 7]
  /\ delivered [DeleteGlobalRef; ClearCancelFlag 7] = [].
Proof.
  intros throwing go engine. split; [reflexivity|].
  apply (consumer_called_again_only_after_true 7 SetupOk engine Returns go ∅
           [NewGlobalRef; SetCancelFlag 7 false; GetEnv JNI_OK;
            NewStringUTF (bytes "Hello. ") true]
           [DeleteGlobalRef; ClearCancelFlag 7] (bytes "Hello. ") JavaException).
  - reflexivity.
  - discriminate.
Defined.

(** ** What the consumer has received when a request ends *)

Section Prefix.
Implicit Types (st : Relay) (rest engine : list action) (jni final : JniReply)
  (ctx : StreamContext) (tr evs : list event).

Lemma step_prefix st a :
  forallb (fun e => negb (isFailedCall e)) (trace (step st a)) = true ->
  Forall (fun b => isNul b = false) (buffer (context st) ++ actionBytes a) ->
  exists kept,
    concat (delivered (trace (step st a))) ++ kept
    = concat (delivered (trace st)) ++ buffer (context st) ++ actionBytes a.
Proof.
  destruct a as [s n jni|h].
  2:{ cbn. intros _ _. by exists (buffer (context st) ++ []). }
  cbn [step actionBytes]. unfold xsputn.
  destruct (_ || _).
  { cbn. intros _ _. exists (buffer (context st) ++ take (Z.to_nat n) s).
    by rewrite app_nil_r. }
  destruct (shouldFlush _ _).
  2:{ cbn. intros _ _. exists (buffer (context st) ++ take (Z.to_nat n) s).
      by rewrite app_nil_r. }
  match goal with |- context [flushToCallback ?j ?c] =>
    pose proof (flushToCallback_conserves j c) as Hflush;
    destruct (flushToCallback j c) as [ctx2 evs] end.
  cbn [fst snd trace buffer] in *. intros Hok Hnul.
  rewrite forallb_app in Hok. apply andb_true_iff in Hok as [_ Hok].
  destruct (Hflush Hok Hnul) as [Hcat _].
  exists (buffer ctx2). by rewrite delivered_app, concat_app, <- app_assoc, Hcat.
Qed.

Lemma response_prefix rest st :
  forallb (fun e => negb (isFailedCall e)) (trace (response rest st)) = true ->
  Forall (fun b => isNul b = false) (buffer (context st) ++ engineText rest) ->
  exists kept,
    concat (delivered (trace (response rest st))) ++ kept
    = concat (delivered (trace st)) ++ buffer (context st) ++ engineText rest
    /\ (shouldStop (context (response rest st)) = false ->
        kept = buffer (context (response rest st))
        /\ Forall (fun b => isNul b = false) kept).
Proof.
  revert st. induction rest as [|a rest IH]; intros st Hok Hnul.
  - cbn in *. rewrite app_nil_r in *. by exists (buffer (context st)).
  - rewrite response_cons in *.
    change (engineText (a :: rest)) with (actionBytes a ++ engineText rest) in *.
    assert (forallb (fun e => negb (isFailedCall e)) (trace (step st a)) = true)
      as Hok1.
    { destruct (response_trace_prefix rest (step st a)) as [evs Hevs].
      rewrite Hevs, forallb_app in Hok. by apply andb_true_iff in Hok as [? _]. }
    rewrite app_assoc in Hnul. pose proof Hnul as Hall.
    apply Forall_app in Hnul as [Hnul1 Hnul2].
    destruct (shouldStop (context (step st a))) eqn:Hstop1.
    + destruct (response_latched rest _ Hstop1) as (Hctx & Htr & _).
      destruct (step_prefix st a Hok1 Hnul1) as [kept Hkept].
      exists (kept ++ engineText rest). split.
      * by rewrite Htr, app_assoc, Hkept, <- !app_assoc.
      * rewrite Hctx, Hstop1. discriminate.
    + destruct (step_conserves st a Hstop1 Hok1 Hnul1) as [Hstep Hnul'].
      destruct (IH (step st a) Hok) as (kept & Hkept & Hopen);
        [apply Forall_app; by split|].
      exists kept. split; [|exact Hopen].
      by rewrite Hkept, app_assoc, Hstep, <- !app_assoc.
Qed.

End Prefix.

(** X16. When no JVM call of a flush fails and the text holds no NUL
    byte, what the consumer has received at the end of a request, on
    every exit and however the request was stopped or cancelled, is a
    beginning of the text the engine wrote: chunks come in order,
    without gap and without repetition. *)
Theorem delivered_is_prefix_of_text (h : Z) (setup : SetupResult)
    (engine : list action) (exit : EngineExit) (final : JniReply) (g : gmap Z bool) :
  let o := nativeGenerateStream h setup engine exit final g in
  Forall (fun e => isFailedCall e = false) (calls o) ->
  Forall (fun b => isNul b = false) (engineText engine) ->
  exists rest, engineText engine = concat (delivered (calls o)) ++ rest.
Proof.
  intros o. unfold o, nativeGenerateStream.
  destruct (h =? 0); [intros _ _; by exists (engineText engine)|].
  destruct setup; try (intros _ _; by exists (engineText engine)).
  set (st1 := response engine (beginStream h g)).
  intros Hok Hnul. apply no_failure_forallb in Hok.
  assert (forallb (fun e => negb (isFailedCall e)) (trace st1) = true
          /\ (exit = Returns ->
              forallb (fun e => negb (isFailedCall e))
                (trace (finalFlush final st1)) = true)) as [Hok1 Hok2].
  { destruct exit; cbn [calls] in Hok; rewrite forallb_app in Hok;
      apply andb_true_iff in Hok as [Hok _]; try (split; [exact Hok|discriminate]).
    split; [|intros _; exact Hok].
    revert Hok. unfold finalFlush. destruct (_ && _); [|done].
    destruct (flushToCallback _ _) as [ctx' evs]. cbn [trace].
    rewrite forallb_app. by intros [? _]%andb_true_iff. }
  destruct (response_prefix engine (beginStream h g) Hok1 Hnul)
    as (kept & Hkept & Hopen).
  fold st1 in Hkept, Hopen. cbn in Hkept.
  assert (forall tr, concat (delivered (tr ++ [DeleteGlobalRef; ClearCancelFlag h]))
                     = concat (delivered tr)) as Htail
    by (intros tr; rewrite delivered_app; cbn; by rewrite app_nil_r).
  destruct exit; cbn [calls]; rewrite Htail; try (by exists kept).
  destruct (shouldStop (context st1)) eqn:Hstop.
  - rewrite finalFlush_latched by assumption. by exists kept.
  - destruct (Hopen eq_refl) as [-> Hnul1].
    rewrite (finalFlush_conserves final st1 Hstop (Hok2 eq_refl) Hnul1).
    exists []. by rewrite app_nil_r.
Qed.

Lemma delivered_is_prefix_of_text_witness :
  let stop := jniOk (Returned false) in
  let engine := [Sputn (bytes "Hello. ") 7 (jniOk (Returned true));
                 Sputn (bytes "there.") 6 stop; Sputn (bytes " And") 4 stop] in
  exists rest,
    bytes "Hello. there. And"
    = concat (delivered (calls (nativeGenerateStream 7 SetupOk engine
                                  ThrowsStdException stop ∅))) ++ rest.
Proof.
  intros stop engine.
  apply (delivered_is_prefix_of_text 7 SetupOk engine ThrowsStdException stop ∅).
  - repeat constructor.
  - repeat constructor.
Defined.

(** ** The chunks themselves *)

Section Chunks.
Implicit Types (st : Relay) (rest engine : list action) (jni final : JniReply)
  (ctx : StreamContext) (tr evs : list event).

Lemma c_str_nul_free (s : list byte) : Forall (fun b => isNul b = false) (c_str s).
Proof.
  induction s as [|b s IH]; [constructor|].
  cbn. destruct (isNul b) eqn:Hb; [constructor|by constructor].
Qed.

Lemma flushToCallback_chunks jni ctx :
  Forall (fun chunk => Forall (fun b => isNul b = false) chunk)
    (delivered (flushToCallback jni ctx).2)
  /\ (Forall (fun b => isNul b = false) (buffer ctx) ->
      Forall (fun chunk => chunk <> []) (delivered (flushToCallback jni ctx).2)
      /\ Forall (fun b => isNul b = false) (buffer (flushToCallback jni ctx).1)).
Proof.
  pose proof (c_str_nul_free (buffer ctx)) as Hc.
  unfold flushToCallback.
  destruct (Nat.eqb_spec (length (buffer ctx)) 0) as [Hlen|Hlen]; cbn [orb];
    [split; [constructor|intros Hnul; split; [constructor|exact Hnul]]|].
  destruct (shouldStop ctx);
    [split; [constructor|intros Hnul; split; [constructor|exact Hnul]]|].
  assert (buffer ctx <> []) as Hne by (intros E; rewrite E in Hlen; by cbn in Hlen).
  destruct jni as [ge att jt ot].
  destruct ge, att, jt, ot as [[|]| |]; cbn;
    (split;
     [repeat constructor; exact Hc
     |intros Hnul; split;
      [rewrite ?(c_str_no_nul _ Hnul); repeat constructor; exact Hne
      |first [exact Hnul|constructor]]]).
Qed.

Lemma step_chunks st a :
  Forall (fun b => isNul b = false) (buffer (context st) ++ actionBytes a) ->
  Forall (fun chunk => chunk <> []) (delivered (trace st)) ->
  Forall (fun chunk => chunk <> []) (delivered (trace (step st a)))
  /\ Forall (fun b => isNul b = false) (buffer (context (step st a))).
Proof.
  intros Hnul Hsofar. pose proof Hnul as Hall.
  apply Forall_app in Hnul as [Hbuf _].
  destruct a as [s n jni|h]; [|by cbn].
  cbn [step actionBytes] in *. unfold xsputn.
  destruct (_ || _).
  { cbn. rewrite app_nil_r. by destruct (checkCancelFlag _ _). }
  destruct (shouldFlush _ _); [|cbn; by rewrite app_nil_r].
  match goal with |- context [flushToCallback ?j ?c] =>
    destruct (flushToCallback_chunks j c) as [_ Hflush];
    destruct (flushToCallback j c) as [ctx2 evs] end.
  cbn [fst snd trace context buffer] in *.
  destruct (Hflush Hall) as [Hchunks Hbuf2].
  rewrite delivered_app. split; [by apply Forall_app|exact Hbuf2].
Qed.

Lemma response_chunks rest st :
  Forall (fun b => isNul b = false) (buffer (context st) ++ engineText rest) ->
  Forall (fun chunk => chunk <> []) (delivered (trace st)) ->
  Forall (fun chunk => chunk <> []) (delivered (trace (response rest st)))
  /\ Forall (fun b => isNul b = false) (buffer (context (response rest st))).
Proof.
  revert st. induction rest as [|a rest IH]; intros st Hnul Hsofar.
  - cbn in *. rewrite app_nil_r in Hnul. by split.
  - rewrite response_cons.
    change (engineText (a :: rest)) with (actionBytes a ++ engineText rest) in *.
    rewrite app_assoc in Hnul. apply Forall_app in Hnul as [Hnul1 Hnul2].
    destruct (step_chunks st a Hnul1 Hsofar) as [Hchunks Hbuf].
    apply IH; [apply Forall_app; by split|exact Hchunks].
Qed.

End Chunks.

(** X17. No chunk handed to the consumer contains a NUL byte, the
    chunk ending where the buffer has one; and when the text the engine
    writes holds no NUL byte, the consumer is never called with an empty
    chunk. *)
Theorem chunks_are_nonempty_c_strings (h : Z) (setup : SetupResult)
    (engine : list action) (exit : EngineExit) (final : JniReply) (g : gmap Z bool) :
  let o := nativeGenerateStream h setup engine exit final g in
  Forall (fun chunk => Forall (fun b => isNul b = false) chunk) (delivered (calls o))
  /\ (Forall (fun b => isNul b = false) (engineText engine) ->
      Forall (fun chunk => chunk <> []) (delivered (calls o))).
Proof.
  intros o. split.
  - destruct (nativeGenerateStream_calls
                (fun evs => Forall (fun chunk => Forall (fun b => isNul b = false) chunk)
                              (delivered evs))
                h setup engine exit final g) as [Hnone|(evs & Hcalls & Hevs)].
    + constructor.
    + intros evs1 evs2 ? ?. rewrite delivered_app. by apply Forall_app.
    + intros j c. apply flushToCallback_chunks.
    + fold o in Hnone. rewrite Hnone. constructor.
    + fold o in Hcalls. rewrite Hcalls, !delivered_app.
      apply Forall_app. split; [constructor|].
      apply Forall_app. split; [exact Hevs|constructor].
  - intros Hnul. unfold o, nativeGenerateStream.
    destruct (h =? 0); [constructor|].
    destruct setup; try constructor.
    destruct (response_chunks engine (beginStream h g)) as [Hchunks Hbuf];
      [exact Hnul|constructor|].
    destruct exit; cbn [calls]; rewrite delivered_app;
      (apply Forall_app; split; [|constructor]); try exact Hchunks.
    unfold finalFlush. destruct (_ && _); [|exact Hchunks].
    destruct (flushToCallback_chunks final
                (context (response engine (beginStream h g)))) as [_ Hflush].
    destruct (flushToCallback _ _) as [ctx' evs]. cbn [trace fst snd] in *.
    rewrite delivered_app. apply Forall_app. split; [exact Hchunks|].
    by destruct (Hflush Hbuf).
Qed.

Lemma chunks_are_nonempty_c_strings_witness :
  let go := jniOk (Returned true) in
  Forall (fun chunk => chunk <> [])
    (delivered (calls (nativeGenerateStream 7 SetupOk
                         [Sputn (bytes "Hello. ") 7 go; Sputn (bytes "there") 5 go]
                         Returns go ∅))).
Proof.
  intros go.
  destruct (chunks_are_nonempty_c_strings 7 SetupOk
              [Sputn (bytes "Hello. ") 7 go; Sputn (bytes "there") 5 go]
              Returns go ∅) as [_ Hnonempty].
  apply Hnonempty. repeat constructor.
Defined.

(** With a NUL byte first in the buffer the consumer does receive an
    empty chunk. *)
Example empty_chunk_after_nul :
  delivered (calls (nativeGenerateStream 7 SetupOk
                      [Sputn [Byte.x00; Byte.x2e] 2 (jniOk (Returned true))]
                      Returns (jniOk (Returned true)) ∅))
  = [[]].
Proof. reflexivity. Qed.

(** ** Generation in one piece *)

Lemma stringstream_text (engine : list action) (str : list byte) :
  fold_left stringstreamWrite engine str = str ++ engineText engine.
Proof.
  revert str. induction engine as [|a engine IH]; intros str.
  - cbn. by rewrite app_nil_r.
  - change (engineText (a :: engine)) with (actionBytes a ++ engineText engine).
    cbn [fold_left]. rewrite IH, app_assoc. f_equal.
    destruct a as [s n jni|h]; cbn; [|by rewrite app_nil_r].
    destruct (Z.ltb_spec 0 n) as [Hn|Hn]; [reflexivity|].
    replace (Z.to_nat n) with 0%nat by lia. cbn. by rewrite app_nil_r.
Qed.

(** X18. With a non-zero handle, [nativeGenerate] returns the whole
    text the engine wrote, cut at its first NUL byte, and for the same
    writes this is what a streaming request hands to the consumer chunk
    by chunk, when that request completes with the latch open, no
    failed JVM call and a text without NUL. It returns null exactly
    when [onToken] is not found, the engine throws a [std::exception],
    or [NewStringUTF] fails. *)
Theorem nativeGenerate_whole_text (h : Z) (engine : list action) (final : JniReply)
    (g : gmap Z bool) :
  h <> 0 ->
  nativeGenerate h true engine Returns true
  = Jstring (Some (c_str (engineText engine)))
  /\ (let o := nativeGenerateStream h SetupOk engine Returns final g in
      latch o = false ->
      Forall (fun e => isFailedCall e = false) (calls o) ->
      Forall (fun b => isNul b = false) (engineText engine) ->
      nativeGenerate h true engine Returns true
      = Jstring (Some (concat (delivered (calls o)))))
  /\ (forall found exit nonNull,
        nativeGenerate h found engine exit nonNull = Jstring None
        <-> found = false \/ exit = ThrowsStdException
            \/ (exit = Returns /\ nonNull = false)).
Proof.
  intros Hh.
  assert (nativeGenerate h true engine Returns true
          = Jstring (Some (c_str (engineText engine)))) as Hwhole.
  { unfold nativeGenerate, stringToJstring.
    destruct (Z.eqb_spec h 0) as [->|_]; [contradiction|].
    cbn. by rewrite stringstream_text. }
  split; [exact Hwhole|]. split.
  - intros o. unfold o, nativeGenerateStream.
    destruct (Z.eqb_spec h 0) as [->|_]; [contradiction|].
    cbn [latch calls]. intros Hlatch Hok Hnul.
    rewrite Hwhole, (c_str_no_nul _ Hnul). do 2 f_equal.
    apply no_failure_forallb in Hok.
    rewrite forallb_app in Hok. apply andb_true_iff in Hok as [Hok _].
    set (st1 := response engine (beginStream h g)) in *.
    assert (forallb (fun e => negb (isFailedCall e)) (trace st1) = true) as Hok1.
    { revert Hok. unfold finalFlush. destruct (_ && _); [|done].
      destruct (flushToCallback _ _) as [ctx' evs]. cbn [trace].
      rewrite forallb_app. by intros [? _]%andb_true_iff. }
    destruct (response_conserves engine (beginStream h g) Hlatch Hok1 Hnul)
      as [Hrun Hnul1].
    fold st1 in Hrun, Hnul1.
    rewrite delivered_app, concat_app.
    change (concat (delivered [DeleteGlobalRef; ClearCancelFlag h])) with (@nil byte).
    by rewrite app_nil_r, (finalFlush_conserves final st1 Hlatch Hok Hnul1), Hrun.
  - intros found exit nonNull. unfold nativeGenerate, stringToJstring.
    destruct (Z.eqb_spec h 0) as [->|_]; [contradiction|].
    destruct found, exit, nonNull; cbn; split; intros H;
      try discriminate H; try reflexivity; try tauto;
      destruct H as [H|[H|[H1 H2]]]; discriminate.
Qed.

Lemma nativeGenerate_whole_text_witness :
  let go := jniOk (Returned true) in
  let engine := [Sputn (bytes "Hello. ") 7 go; Sputn (bytes "there") 5 go] in
  nativeGenerate 7 true engine Returns true = Jstring (Some (bytes "Hello. there"))
  /\ nativeGenerate 7 true engine Returns true
     = Jstring (Some (concat (delivered
         (calls (nativeGenerateStream 7 SetupOk engine Returns go ∅))))).
Proof.
  intros go engine.
  destruct (nativeGenerate_whole_text 7 engine go ∅) as (Hwhole & Hsame & _); [lia|].
  split; [exact Hwhole|].
  apply Hsame; [reflexivity|repeat constructor|repeat constructor].
Defined.

(** ** An exception of the engine *)

Lemma flushToCallback_one_call (jni : JniReply) (ctx : StreamContext) :
  (length (delivered (flushToCallback jni ctx).2) <= 1)%nat.
Proof.
  unfold flushToCallback. destruct (_ || _); [cbn; lia|].
  destruct jni as [ge att jt ot].
  destruct ge, att, jt, ot as [[|]| |]; cbn; lia.
Qed.

(** X19. When the engine throws, the request returns false and makes
    no flush after the writes: its calls are those of the writes
    followed by the teardown, where the same run ending normally makes
    the final flush in between. So the bytes still in the buffer are
    dropped: when the buffer is not empty, the latch is open and the
    final flush would reach the consumer, the normal run hands over
    exactly one more chunk, the buffer, which the run that throws never
    delivers. Every chunk handed over before stays handed over, the
    flag is cleared and the writes were answered in the same way. *)
Theorem exception_keeps_delivered_chunks (h : Z) (setup : SetupResult)
    (engine : list action) (exit : EngineExit) (final : JniReply) (g : gmap Z bool) :
  exit <> Returns ->
  let thrown := nativeGenerateStream h setup engine exit final g in
  let normal := nativeGenerateStream h setup engine Returns final g in
  let st1 := response engine (beginStream h g) in
  result thrown = false
  /\ flagsAfter thrown = flagsAfter normal
  /\ returned thrown = returned normal
  /\ (exists last,
        delivered (calls normal) = delivered (calls thrown) ++ last
        /\ (length last <= 1)%nat)
  /\ (h <> 0 -> setup = SetupOk ->
      calls thrown = trace st1 ++ [DeleteGlobalRef; ClearCancelFlag h]
      /\ calls normal
         = trace (finalFlush final st1) ++ [DeleteGlobalRef; ClearCancelFlag h]
      /\ delivered (calls thrown) = delivered (trace st1)
      /\ (buffer (context st1) <> [] -> shouldStop (context st1) = false ->
          reachesConsumer final ->
          delivered (calls normal)
          = delivered (calls thrown) ++ [c_str (buffer (context st1))])).
Proof.
  intros Hexit thrown normal st1.
  assert (result thrown = false
          /\ flagsAfter thrown = flagsAfter normal
          /\ returned thrown = returned normal
          /\ (exists last,
                delivered (calls normal) = delivered (calls thrown) ++ last
                /\ (length last <= 1)%nat)) as Hsame.
  { unfold thrown, normal, nativeGenerateStream.
    destruct (h =? 0); [repeat split; exists []; split; [reflexivity|cbn; lia]|].
    destruct setup; try (repeat split; exists []; split; [reflexivity|cbn; lia]).
    fold st1.
    destruct (finalFlush_events (fun evs => (length (delivered evs) <= 1)%nat)
                final st1) as (evs & Htr & Hevs);
      [cbn; lia|intros; apply flushToCallback_one_call|].
    destruct exit; [contradiction| |]; cbn [result flagsAfter returned calls];
      rewrite finalFlush_flags, finalFlush_accepted, Htr;
      (split; [reflexivity|]); (split; [reflexivity|]); (split; [reflexivity|]);
      exists (delivered evs); (split; [|exact Hevs]);
      rewrite !delivered_app; cbn; by rewrite !app_nil_r. }
  destruct Hsame as (Hres & Hflags & Hret & Hlast).
  split; [exact Hres|]. split; [exact Hflags|]. split; [exact Hret|].
  split; [exact Hlast|].
  intros Hh ->.
  assert (calls thrown = trace st1 ++ [DeleteGlobalRef; ClearCancelFlag h]) as Hthrown.
  { unfold thrown, nativeGenerateStream.
    destruct (Z.eqb_spec h 0) as [->|_]; [contradiction|].
    by destruct exit. }
  assert (calls normal
          = trace (finalFlush final st1) ++ [DeleteGlobalRef; ClearCancelFlag h])
    as Hnormal.
  { unfold normal, nativeGenerateStream.
    by destruct (Z.eqb_spec h 0) as [->|_]. }
  assert (forall tr, delivered (tr ++ [DeleteGlobalRef; ClearCancelFlag h])
                     = delivered tr) as Htail
    by (intros tr; rewrite delivered_app; cbn; by rewrite app_nil_r).
  split; [exact Hthrown|]. split; [exact Hnormal|].
  split; [by rewrite Hthrown, Htail|].
  intros Hbuf Hopen Hreach. rewrite Hthrown, Hnormal, !Htail.
  unfold finalFlush. rewrite Hopen.
  destruct (Nat.eqb_spec (length (buffer (context st1))) 0) as [Hlen|_];
    [by apply length_zero_iff_nil in Hlen|].
  cbn [negb andb].
  destruct (flushToCallback_live final (context st1) Hbuf Hopen) as (_ & _ & Hdel).
  destruct (Hdel Hreach) as [Hchunk _].
  destruct (flushToCallback final (context st1)) as [ctx' evs].
  cbn [trace fst snd] in *. by rewrite delivered_app, Hchunk.
Qed.

Lemma exception_keeps_delivered_chunks_witness :
  let go := jniOk (Returned true) in
  let engine := [Sputn (bytes "Hello. ") 7 go; Sputn (bytes "there") 5 go] in
  let thrown := nativeGenerateStream 7 SetupOk engine ThrowsOther go ∅ in
  let normal := nativeGenerateStream 7 SetupOk engine Returns go ∅ in
  delivered (calls thrown) = [bytes "Hello. "]
  /\ delivered (calls normal) = delivered (calls thrown) ++ [bytes "there"]
  /\ flushCount (calls thrown) = 1%nat.
Proof.
  intros go engine thrown normal.
  destruct (exception_keeps_delivered_chunks 7 SetupOk engine ThrowsOther go ∅)
    as (_ & _ & _ & _ & Hskip); [discriminate|].
  destruct Hskip as (_ & _ & Hdel & Hdrop); [lia|reflexivity|].
  split; [exact Hdel|]. split; [|reflexivity].
  apply Hdrop; [discriminate|reflexivity|split; [left|]; reflexivity].
Defined.

(** ** Sixteen letters in a request *)

(** X20. A request whose engine writes sixteen letters in all, split
    into writes in any way, whose handle no thread cancels and whose
    flushes reach the consumer, hands them over as one chunk of these
    sixteen bytes, with one flush, whatever the consumer answers. *)
Theorem sixteen_letters_in_any_split (h : Z) (engine : list action)
    (final : JniReply) (g : gmap Z bool) :
  h <> 0 ->
  Forall (undisturbed h) engine ->
  reachesConsumer final ->
  Forall (fun b => isLetter b = true) (engineText engine) ->
  length (engineText engine) = 16%nat ->
  let o := nativeGenerateStream h SetupOk engine Returns final g in
  delivered (calls o) = [engineText engine] /\ flushCount (calls o) = 1%nat.
Proof.
  intros Hh Hgood Hfinal Hletters Hlen o. unfold o, nativeGenerateStream.
  destruct (Z.eqb_spec h 0) as [->|_]; [contradiction|].
  cbn [calls].
  destruct (letters_one_flush engine (beginStream h g) final) as [Hdel Hcount];
    try assumption; [reflexivity|apply checkCancelFlag_set|].
  cbv zeta in Hdel, Hcount. cbn [beginStream context buffer trace app] in Hdel, Hcount.
  rewrite delivered_app, flushCount_app, Hdel, Hcount.
  split; reflexivity.
Qed.

Lemma sixteen_letters_in_any_split_witness :
  let stop := jniOk (Returned false) in
  let engine := [Sputn (bytes "abcdefg") 7 stop; OtherThreadCancel 9;
                 Sputn (bytes "hijklmnop") 9 stop] in
  let o := nativeGenerateStream 7 SetupOk engine Returns stop ∅ in
  delivered (calls o) = [bytes "abcdefghijklmnop"] /\ flushCount (calls o) = 1%nat.
Proof.
  intros stop engine o.
  apply (sixteen_letters_in_any_split 7 engine stop ∅).
  - lia.
  - repeat constructor. cbn. lia.
  - split; [left|]; reflexivity.
  - repeat constructor.
  - reflexivity.
Defined.

(** ** The text of a completed request *)

Section Completed.
Implicit Types (st : Relay) (rest engine : list action) (jni final : JniReply)
  (ctx : StreamContext) (tr evs : list event).

Lemma no_jstring_failure_forallb evs :
  Forall (fun e => isJstringFailure e = false) evs ->
  forallb (fun e => negb (isJstringFailure e)) evs = true.
Proof.
  induction 1 as [|e evs He _ IH]; [reflexivity|].
  cbn. by rewrite He, IH.
Qed.

Lemma lastFlushLacksEnv_teardown tr e h :
  lastFlushLacksEnv ((tr ++ [e]) ++ [DeleteGlobalRef; ClearCancelFlag h])
  = match e with
    | GetEnv JNI_OtherError | AttachCurrentThread false => true
    | _ => false
    end.
Proof. unfold lastFlushLacksEnv. rewrite !rev_app_distr. reflexivity. Qed.

Lemma lastFlushLacksEnv_teardown2 tr e0 e h :
  lastFlushLacksEnv ((tr ++ [e0; e]) ++ [DeleteGlobalRef; ClearCancelFlag h])
  = match e with
    | GetEnv JNI_OtherError | AttachCurrentThread false => true
    | _ => false
    end.
Proof. unfold lastFlushLacksEnv. rewrite !rev_app_distr. reflexivity. Qed.

(** The flush at the end of generation hands the buffer over, unless
    [NewStringUTF] fails in it or it obtains no [JNIEnv]. *)
Lemma finalFlush_hands_over final st h :
  shouldStop (context st) = false ->
  forallb (fun e => negb (isJstringFailure e)) (trace (finalFlush final st)) = true ->
  lastFlushLacksEnv (trace (finalFlush final st) ++ [DeleteGlobalRef; ClearCancelFlag h])
  = false ->
  Forall (fun b => isNul b = false) (buffer (context st)) ->
  concat (delivered (trace (finalFlush final st)))
  = concat (delivered (trace st)) ++ buffer (context st).
Proof.
  intros Hstop Hjs Hlast Hnul. apply c_str_no_nul in Hnul.
  revert Hjs Hlast. unfold finalFlush. rewrite Hstop.
  destruct (Nat.eqb_spec (length (buffer (context st))) 0) as [Hlen|Hlen];
    cbn [negb andb].
  { intros _ _. apply length_zero_iff_nil in Hlen. by rewrite Hlen, app_nil_r. }
  unfold flushToCallback. rewrite Hstop.
  destruct (Nat.eqb_spec (length (buffer (context st))) 0) as [|_]; [done|].
  cbn [orb]. destruct final as [ge att jt ot].
  destruct ge, att, jt, ot as [[|]| |];
    cbn [getEnvResult attachOk deliver jtokenNonNull onToken trace app];
    intros Hjs Hlast;
    try (rewrite forallb_app in Hjs; apply andb_true_iff in Hjs as [_ Hjs];
         cbn in Hjs; discriminate Hjs);
    try (rewrite lastFlushLacksEnv_teardown in Hlast; cbn in Hlast;
         discriminate Hlast);
    try (rewrite lastFlushLacksEnv_teardown2 in Hlast; cbn in Hlast;
         discriminate Hlast);
    rewrite delivered_app, concat_app; cbn; rewrite Hnul; by rewrite ?app_nil_r.
Qed.

(** A request the handle of which nobody cancels and the consumer of
    which never stops keeps its latch open and takes every write
    whole. *)
Lemma nativeGenerateStream_open h engine exit final (g : gmap Z bool) :
  h <> 0 ->
  let o := nativeGenerateStream h SetupOk engine exit final g in
  Forall (fun a => a <> OtherThreadCancel h) engine ->
  Forall (fun e => stopsGeneration e = false) (calls o) ->
  latch o = false /\ returned o = requested engine.
Proof.
  intros Hh o Hcancel Hquiet. unfold o in *. clear o.
  assert (forallb (fun e => negb (stopsGeneration e))
            (calls (nativeGenerateStream h SetupOk engine exit final g)) = true)
    as Hall.
  { clear -Hquiet. induction Hquiet as [|e evs He _ IH]; [reflexivity|].
    cbn. by rewrite He, IH. }
  clear Hquiet. unfold nativeGenerateStream in *.
  destruct (Z.eqb_spec h 0) as [->|_]; [contradiction|].
  assert (forallb (fun e => negb (stopsGeneration e))
            (trace (response engine (beginStream h g))) = true) as Hrun.
  { destruct exit; cbn [calls] in Hall; rewrite forallb_app in Hall;
      apply andb_true_iff in Hall as [Hall _]; [|exact Hall|exact Hall].
    revert Hall. unfold finalFlush. destruct (_ && _); [|done].
    destruct (flushToCallback _ _) as [ctx' evs]. cbn [trace].
    rewrite forallb_app. by intros [? _]%andb_true_iff. }
  destruct (response_open engine (beginStream h g)) as [Hopen Hacc];
    [reflexivity|apply checkCancelFlag_set|exact Hcancel|exact Hrun|].
  destruct exit; cbn [latch returned]; rewrite ?finalFlush_accepted; by split.
Qed.

End Completed.

(** C1, amended. For a request that runs to completion with the latch
    still open when the engine returns (so that no write saw a cancel
    and no answer of the consumer stopped it), in which [NewStringUTF]
    never returns null, whose last flush does not fail to obtain a
    [JNIEnv], and whose text holds no NUL byte, the chunks handed to
    the consumer, concatenated in order and including the one of the
    final flush, are the text the engine wrote. Flushes that obtain no
    [JNIEnv] before the last one are allowed: they keep the buffer and
    a later flush hands it over. A chunk is the bytes given to
    [NewStringUTF]. *)
Theorem nativeGenerateStream_delivers_engine_text (h : Z) (engine : list action)
    (final : JniReply) (g : gmap Z bool) :
  h <> 0 ->
  let o := nativeGenerateStream h SetupOk engine Returns final g in
  latch o = false ->
  Forall (fun e => isJstringFailure e = false) (calls o) ->
  lastFlushLacksEnv (calls o) = false ->
  Forall (fun b => isNul b = false) (engineText engine) ->
  result o = true /\ concat (delivered (calls o)) = engineText engine.
Proof.
  intros Hh o. unfold o, nativeGenerateStream.
  destruct (Z.eqb_spec h 0) as [->|_]; [contradiction|].
  cbn [latch calls result]. intros Hlatch Hjs Hlast Hnul.
  split; [reflexivity|].
  apply no_jstring_failure_forallb in Hjs.
  rewrite forallb_app in Hjs. apply andb_true_iff in Hjs as [Hjs _].
  set (st1 := response engine (beginStream h g)) in *.
  assert (forallb (fun e => negb (isJstringFailure e)) (trace st1) = true) as Hjs1.
  { revert Hjs. unfold finalFlush. destruct (_ && _); [|done].
    destruct (flushToCallback _ _) as [ctx' evs]. cbn [trace].
    rewrite forallb_app. by intros [? _]%andb_true_iff. }
  assert (concat (delivered (trace st1)) ++ buffer (context st1) = engineText engine)
    as Hrun by (unfold st1; by rewrite response_retains).
  assert (Forall (fun b => isNul b = false) (buffer (context st1))) as Hnul1.
  { rewrite <- Hrun in Hnul. by apply Forall_app in Hnul as [_ ?]. }
  rewrite delivered_app, concat_app.
  change (concat (delivered [DeleteGlobalRef; ClearCancelFlag h])) with (@nil byte).
  by rewrite app_nil_r, (finalFlush_hands_over final st1 h Hlatch Hjs Hlast Hnul1).
Qed.

Lemma nativeGenerateStream_delivers_engine_text_witness :
  let go := jniOk (Returned true) in
  let detached := {| getEnvResult := JNI_EDETACHED; attachOk := false;
                     jtokenNonNull := true; onToken := Returned true |} in
  let engine := [Sputn (bytes "Hello. ") 7 detached; Sputn (bytes "there.") 6 go;
                 Sputn (bytes " And") 4 go] in
  let o := nativeGenerateStream 7 SetupOk engine Returns go ∅ in
  delivered (calls o) = [bytes "Hello. there."; bytes " And"]
  /\ result o = true
  /\ concat (delivered (calls o)) = bytes "Hello. there. And".
Proof.
  intros go detached engine o.
  destruct (nativeGenerateStream_delivers_engine_text 7 engine go ∅) as [Hres Hcat].
  - lia.
  - reflexivity.
  - repeat constructor.
  - reflexivity.
  - repeat constructor.
  - split; [reflexivity|]. split; [exact Hres|exact Hcat].
Defined.

(** A flush before the last one that cannot attach the thread loses
    nothing, and the last flush needs a [JNIEnv] only when it has bytes
    to hand over. *)
Example nativeGenerateStream_delivers_after_failed_attach :
  let detached := {| getEnvResult := JNI_EDETACHED; attachOk := false;
                     jtokenNonNull := true; onToken := Returned true |} in
  let engine := [Sputn (bytes "Hi.") 3 detached;
                 Sputn (bytes " Yes.") 5 (jniOk (Returned true))] in
  let o := nativeGenerateStream 7 SetupOk engine Returns detached ∅ in
  delivered (calls o) = [bytes "Hi. Yes."] /\ lastFlushLacksEnv (calls o) = false.
Proof. split; reflexivity. Qed.

(** C9. A request with a non-zero handle whose JNI setup succeeds
    registers its flag as false whatever the table held: its calls
    begin with the creation of the global reference and the writing of
    false into the entry of the handle, and what follows is the run of
    the sink from the table in which that entry is false. So a
    [nativeCancel] of the same handle made before the request is
    discarded: the request runs exactly as from the table without that
    cancel, its first write of [n > 0] bytes is accepted whole, and as
    long as no thread cancels the handle during the request and the
    consumer does not stop it, the latch stays open and every write is
    taken whole. *)
Theorem nativeGenerateStream_discards_earlier_cancel (h : Z) (g : gmap Z bool)
    (engine : list action) (exit : EngineExit) (final : JniReply) :
  gCancelFlags (beginStream h g) !! h = Some false
  /\ checkCancelFlag h (gCancelFlags (beginStream h (nativeCancel h g))) = false
  /\ nativeGenerateStream h SetupOk engine exit final (nativeCancel h g)
     = nativeGenerateStream h SetupOk engine exit final g
  /\ (forall s n jni, h <> 0 -> 0 < n ->
        exists rs,
          returned (nativeGenerateStream h SetupOk (Sputn s n jni :: engine) exit
                      final (nativeCancel h g)) = n :: rs)
  /\ (h <> 0 ->
      let o := nativeGenerateStream h SetupOk engine exit final (nativeCancel h g) in
      let st1 := response engine (beginStream h (nativeCancel h g)) in
      let st2 := match exit with Returns => finalFlush final st1 | _ => st1 end in
      (exists evs,
          calls o = NewGlobalRef :: SetCancelFlag h false :: evs
                    ++ [DeleteGlobalRef; ClearCancelFlag h])
      /\ calls o = trace st2 ++ [DeleteGlobalRef; ClearCancelFlag h]
      /\ returned o = accepted st2
      /\ latch o = shouldStop (context st1)
      /\ flagsAfter o = clearCancelFlag h (gCancelFlags st2)
      /\ (Forall (fun a => a <> OtherThreadCancel h) engine ->
          Forall (fun e => stopsGeneration e = false) (calls o) ->
          latch o = false /\ returned o = requested engine)).
Proof.
  assert (forall e, nativeGenerateStream h SetupOk e exit final (nativeCancel h g)
                    = nativeGenerateStream h SetupOk e exit final g) as Hsame.
  { intros e. unfold nativeGenerateStream, nativeCancel.
    destruct (h =? 0); [reflexivity|].
    unfold beginStream. by rewrite setCancelFlag_twice. }
  split; [apply lookup_insert_eq|]. split; [apply checkCancelFlag_set|].
  split; [apply Hsame|]. split.
  - intros s n jni Hh Hn. rewrite Hsame. unfold nativeGenerateStream.
    destruct (Z.eqb_spec h 0) as [->|_]; [contradiction|].
    rewrite response_cons.
    set (st1 := step (beginStream h g) (Sputn s n jni)).
    assert (accepted st1 = [n]) as Hfirst.
    { unfold st1. cbn. rewrite xsputn_accepted;
        [|reflexivity|apply checkCancelFlag_set|assumption].
      cbv zeta. by destruct (shouldFlush _ _). }
    destruct (response_accepted_prefix engine st1) as [rs Hrs].
    rewrite Hfirst in Hrs. exists rs.
    destruct exit; cbn [returned]; by rewrite ?finalFlush_accepted.
  - intros Hh o st1 st2.
    assert (calls o = trace st2 ++ [DeleteGlobalRef; ClearCancelFlag h]
            /\ returned o = accepted st2
            /\ latch o = shouldStop (context st1)
            /\ flagsAfter o = clearCancelFlag h (gCancelFlags st2))
      as (Hcalls & Hret & Hlatch & Hflags).
    { unfold o, st2, st1, nativeGenerateStream.
      destruct (Z.eqb_spec h 0) as [->|_]; [contradiction|].
      by destruct exit. }
    split; [|split; [exact Hcalls|split; [exact Hret|split; [exact Hlatch|]]]].
    + destruct (response_trace_prefix engine (beginStream h (nativeCancel h g)))
        as [evs Hevs].
      fold st1 in Hevs. cbn [beginStream trace] in Hevs.
      destruct (finalFlush_events (fun _ => True) final st1) as (evs' & Hfinal & _);
        [done|done|].
      rewrite Hcalls. unfold st2.
      destruct exit; rewrite ?Hfinal, Hevs.
      * exists (evs ++ evs'). cbn. by rewrite <- !app_assoc.
      * by exists evs.
      * by exists evs.
    + split; [exact Hflags|].
      by apply nativeGenerateStream_open.
Qed.

Lemma nativeGenerateStream_discards_earlier_cancel_witness :
  let go := jniOk (Returned true) in
  let o := nativeGenerateStream 7 SetupOk [Sputn (bytes "Hi") 2 go] Returns go
             (nativeCancel 7 ∅) in
  (exists rs, returned o = 2 :: rs)
  /\ (exists evs, calls o = NewGlobalRef :: SetCancelFlag 7 false :: evs
                            ++ [DeleteGlobalRef; ClearCancelFlag 7])
  /\ latch o = false
  /\ returned o = [2].
Proof.
  intros go o.
  destruct (nativeGenerateStream_discards_earlier_cancel 7 ∅ [] Returns go)
    as (_ & _ & _ & Hfirst & _).
  destruct (nativeGenerateStream_discards_earlier_cancel 7 ∅
              [Sputn (bytes "Hi") 2 go] Returns go) as (_ & _ & _ & _ & Hrun).
  destruct Hrun as (Hreg & _ & _ & _ & _ & Hopen); [lia|].
  split; [apply (Hfirst (bytes "Hi") 2 go); lia|].
  split; [exact Hreg|].
  apply Hopen; repeat constructor; discriminate.
Defined.
